(** * replize: a shallow embedding of the REPL driver

    The development follows [replize/replize.py]:

    - [Py]       the fragment of the Python runtime the driver relies on:
                 the exception hierarchy, [str.strip], [str.split], [int],
                 [shlex.split] and [Popen.communicate];
    - [Replize]  the driver itself: [ReplizeConfig], [_handle_builtin_command],
                 [_run_repl_loop], [replize];
    - the theorems about the driver.

    Text is ASCII (Rocq's [string]).  Messages printed by the driver are kept
    as structured values, one constructor per [print] statement of the source,
    so that no number formatting is needed. *)

From stdpp Require Import base strings gmap list.
From Stdlib Require Import ZArith Lia Ascii String.

Open Scope string_scope.
Open Scope list_scope.

(* ================================================================== *)
(** * The Python runtime fragment *)
(* ================================================================== *)

Module Py.

(** ** Exceptions *)

(** The built-in classes the driver meets, plus user-defined classes
    ([class CustomExit(Exception)] in the tests). *)
Inductive exc_class : Type :=
| BaseException
| Exception
| KeyboardInterrupt
| SystemExit
| EOFError
| ValueError
| UnicodeDecodeError
| LookupError
| IndexError
| KeyError
| OSError
| FileNotFoundError
| PermissionError
| TimeoutError
| SubprocessError
| TimeoutExpired
| UserClass (name : string) (base : exc_class).

#[global] Instance exc_class_eq_dec : EqDecision exc_class.
Proof. solve_decision. Defined.

(** Method resolution order: the class and its ancestors.
    [subprocess.TimeoutExpired] derives from [SubprocessError], not from the
    built-in [TimeoutError] (an [OSError]). *)
Fixpoint mro (c : exc_class) : list exc_class :=
  match c with
  | BaseException => [BaseException]
  | Exception => [Exception; BaseException]
  | KeyboardInterrupt => [KeyboardInterrupt; BaseException]
  | SystemExit => [SystemExit; BaseException]
  | EOFError => [EOFError; Exception; BaseException]
  | ValueError => [ValueError; Exception; BaseException]
  | UnicodeDecodeError => [UnicodeDecodeError; ValueError; Exception; BaseException]
  | LookupError => [LookupError; Exception; BaseException]
  | IndexError => [IndexError; LookupError; Exception; BaseException]
  | KeyError => [KeyError; LookupError; Exception; BaseException]
  | OSError => [OSError; Exception; BaseException]
  | FileNotFoundError => [FileNotFoundError; OSError; Exception; BaseException]
  | PermissionError => [PermissionError; OSError; Exception; BaseException]
  | TimeoutError => [TimeoutError; OSError; Exception; BaseException]
  | SubprocessError => [SubprocessError; Exception; BaseException]
  | TimeoutExpired => [TimeoutExpired; SubprocessError; Exception; BaseException]
  | UserClass n b => UserClass n b :: mro b
  end.

Definition issubclass (c d : exc_class) : bool := bool_decide (d ∈ mro c).

(** A raised exception: its class and its message. *)
Record exc : Type := Exc { exc_type : exc_class; exc_msg : string }.

#[global] Instance exc_eq_dec : EqDecision exc.
Proof. solve_decision. Defined.

(** [except cls:] catches [e]. *)
Definition isinstance (e : exc) (cls : exc_class) : bool :=
  issubclass (exc_type e) cls.

(** [except (c1, c2, ...):] catches [e]. *)
Definition isinstance_any (e : exc) (clss : list exc_class) : bool :=
  existsb (isinstance e) clss.

(** ** Strings *)

(** [str.isspace] on ASCII: tab, LF, VT, FF, CR, the four separators
    28..31 and the space. *)
Definition isspace (c : ascii) : bool :=
  let n := nat_of_ascii c in
  (Nat.leb 9 n && Nat.leb n 13) || (Nat.leb 28 n && Nat.leb n 32).

Definition isdigit (c : ascii) : bool :=
  let n := nat_of_ascii c in Nat.leb 48 n && Nat.leb n 57.

Fixpoint lstrip (s : string) : string :=
  match s with
  | String c r => if isspace c then lstrip r else s
  | EmptyString => EmptyString
  end.

Fixpoint rstrip (s : string) : string :=
  match s with
  | EmptyString => EmptyString
  | String c r =>
      match rstrip r with
      | EmptyString => if isspace c then EmptyString else String c EmptyString
      | r' => String c r'
      end
  end.

(** [s.strip()] *)
Definition strip (s : string) : string := lstrip (rstrip s).

(** [s.split()]: the maximal runs of non-whitespace characters.  [word] is
    the run being read, if any. *)
Fixpoint split_from (word : option string) (s : string) : list string :=
  match s with
  | EmptyString => match word with Some w => [w] | None => [] end
  | String c r =>
      if isspace c then
        match word with
        | Some w => w :: split_from None r
        | None => split_from None r
        end
      else
        split_from (Some (default "" word +:+ String c "")) r
  end.

Definition split (s : string) : list string := split_from None s.

(** [s.startswith('!')] *)
Definition startswith_bang (s : string) : bool :=
  match s with
  | String c _ => bool_decide (c = "!"%char)
  | EmptyString => false
  end.

(** [s[1:]] *)
Definition drop1 (s : string) : string :=
  match s with
  | String _ r => r
  | EmptyString => EmptyString
  end.

(** ** [int(str)] *)

(** Decimal digits, single underscores allowed between digits.
    [after_digit] tells whether the previous character was a digit. *)
Fixpoint int_digits (after_digit : bool) (acc : Z) (s : string) : option Z :=
  match s with
  | EmptyString => if after_digit then Some acc else None
  | String c r =>
      if isdigit c then
        int_digits true (10 * acc + (Z.of_nat (nat_of_ascii c) - 48)) r
      else if bool_decide (c = "_"%char) then
        if after_digit then int_digits false acc r else None
      else None
  end.

(** [Py_ISSPACE], the whitespace [int] skips around the number of an ASCII
    string: tab, LF, VT, FF, CR and the space.  The separators 28..31, which
    [str.strip] removes, are not part of it. *)
Definition Py_ISSPACE (c : ascii) : bool :=
  let n := nat_of_ascii c in (Nat.leb 9 n && Nat.leb n 13) || Nat.eqb n 32.

Fixpoint skip_spaces (s : string) : string :=
  match s with
  | String c r => if Py_ISSPACE c then skip_spaces r else s
  | EmptyString => EmptyString
  end.

Fixpoint drop_trailing_spaces (s : string) : string :=
  match s with
  | EmptyString => EmptyString
  | String c r =>
      match drop_trailing_spaces r with
      | EmptyString => if Py_ISSPACE c then EmptyString else String c EmptyString
      | r' => String c r'
      end
  end.

(** The number of digit characters; underscores are not counted. *)
Fixpoint count_digits (s : string) : nat :=
  match s with
  | EmptyString => 0
  | String c r => if isdigit c then S (count_digits r) else count_digits r
  end.

(** [sys.get_int_max_str_digits()], at its default. *)
Definition int_max_str_digits : nat := 4300.

(** The digits after the sign: a number of more digits than the limit is
    refused. *)
Definition int_unsigned_digits (s : string) : option Z :=
  if Nat.ltb int_max_str_digits (count_digits s) then None
  else int_digits false 0 s.

(** [int(s)] in base ten; [None] stands for [ValueError].  Whitespace
    around the number is skipped and one sign is accepted, with nothing
    between the sign and the digits. *)
Definition int (s : string) : option Z :=
  match skip_spaces (drop_trailing_spaces s) with
  | String "+" r => int_unsigned_digits r
  | String "-" r => Z.opp <$> int_unsigned_digits r
  | r => int_unsigned_digits r
  end.

(** ** [shlex.split] *)

(** The states of [shlex.read_token] (POSIX mode): the blank state between
    tokens, the state [a] inside a word, a quote character inside quotes,
    and the escape character after a backslash.  [escapedstate] is the state
    to return to after the escaped character: [a] ([None]) or the double
    quote. *)
Inductive lex_state : Type :=
| InWhitespace
| InWord
| InQuotes (q : ascii)
| InEscape (escapedstate : option ascii).

(** [shlex.whitespace]: space, tab, CR, LF *)
Definition shlex_whitespace (c : ascii) : bool :=
  bool_decide (c = " "%char) || bool_decide (c = "009"%char)
  || bool_decide (c = "013"%char) || bool_decide (c = "010"%char).

(** [shlex.quotes]: the single quote (39) and the double quote (34) *)
Definition shlex_quote (c : ascii) : bool :=
  bool_decide (c = "039"%char) || bool_decide (c = "034"%char).

(** [shlex.escape] *)
Definition shlex_escape (c : ascii) : bool := bool_decide (c = "\"%char).

(** [shlex.escapedquotes] *)
Definition shlex_escapedquote (c : ascii) : bool := bool_decide (c = "034"%char).

(** The end of a [read_token] call: an empty result that was never quoted
    means end of input, anything else is a token. *)
Definition emit (token : string) (quoted : bool) (rest : list string) : list string :=
  if negb quoted && bool_decide (token = "") then rest else token :: rest.

(** A token returned by [read_token] is put before those of the later
    calls; an error of a later call is the error of the whole. *)
Definition yield (token : string) (later : string + list string)
  : string + list string :=
  match later with
  | inl msg => inl msg
  | inr tokens => inr (token :: tokens)
  end.

(** [list(lex)] for [lex = shlex(s, posix=True)] with [whitespace_split] on
    and no comment characters, from the given lexer state.  The result is
    the token list or the message of the [ValueError]. *)
Fixpoint lex (state : lex_state) (token : string) (quoted : bool) (s : string)
  : string + list string :=
  match s with
  | EmptyString =>
      match state with
      | InWhitespace | InWord => inr (emit token quoted [])
      | InQuotes _ => inl "No closing quotation"
      | InEscape _ => inl "No escaped character"
      end
  | String c r =>
      match state with
      | InWhitespace =>
          if shlex_whitespace c then
            if negb (bool_decide (token = "")) || quoted
            then yield token (lex InWhitespace "" false r)
            else lex InWhitespace token quoted r
          else if shlex_escape c then lex (InEscape None) token quoted r
          else if shlex_quote c then lex (InQuotes c) token quoted r
          else lex InWord (String c "") quoted r
      | InQuotes q =>
          if bool_decide (c = q) then lex InWord token true r
          else if shlex_escape c && shlex_escapedquote q
               then lex (InEscape (Some q)) token true r
          else lex (InQuotes q) (token +:+ String c "") true r
      | InEscape escapedstate =>
          match escapedstate with
          | Some q =>
              let token :=
                if negb (shlex_escape c) && negb (bool_decide (c = q))
                then token +:+ "\" else token in
              lex (InQuotes q) (token +:+ String c "") quoted r
          | None => lex InWord (token +:+ String c "") quoted r
          end
      | InWord =>
          if shlex_whitespace c then
            if negb (bool_decide (token = "")) || quoted
            then yield token (lex InWhitespace "" false r)
            else lex InWhitespace token quoted r
          else if shlex_quote c then lex (InQuotes c) token quoted r
          else if shlex_escape c then lex (InEscape None) token quoted r
          else lex InWord (token +:+ String c "") quoted r
      end
  end.

(** [shlex.split(s)] *)
Definition shlex_split (s : string) : string + list string :=
  lex InWhitespace "" false s.

(** ** Subprocesses *)

Definition bytes : Type := list Byte.byte.

(** A spawned child, as the parent can observe it: how long it runs, what
    it writes and returns when left to finish, what the pipes hold if it is
    killed before, and an exception delivered to the parent while it waits
    (a [KeyboardInterrupt] on Ctrl-C, an [OSError]), if any. *)
Record process : Type := Process {
  proc_runtime : nat;
  proc_stdout : bytes;
  proc_stderr : bytes;
  proc_returncode : Z;
  proc_partial_stdout : bytes;
  proc_partial_stderr : bytes;
  proc_wait_error : option exc
}.

(** [process.communicate(timeout=t)]: the captured output, or
    [subprocess.TimeoutExpired] when the child outlives the timeout. *)
Definition communicate (p : process) (timeout : option nat) : exc + (bytes * bytes) :=
  match proc_wait_error p with
  | Some e => inl e
  | None =>
      match timeout with
      | Some t =>
          if Nat.ltb t (proc_runtime p)
          then inl (Exc TimeoutExpired "timed out")
          else inr (proc_stdout p, proc_stderr p)
      | None => inr (proc_stdout p, proc_stderr p)
      end
  end.

(** [process.communicate()] once the child was killed: what was written
    before. *)
Definition communicate_killed (p : process) : bytes * bytes :=
  (proc_partial_stdout p, proc_partial_stderr p).

(** [process.returncode] of a killed child: minus the number of SIGKILL. *)
Definition killed_returncode : Z := (-9)%Z.

(** The machine the session runs on. *)
Record world : Type := World {
  (** [Popen(argv, stdout=PIPE, stderr=PIPE)]: the child, or the exception
      of a failed spawn *)
  Popen : list string -> exc + process;
  (** [x.decode()]; [None] stands for [UnicodeDecodeError] *)
  decode : bytes -> option string;
  (** [shutil.which(name) is not None] *)
  which : string -> bool;
  (** [open(path, 'a')]: the exception, if it fails *)
  open_append : string -> option exc
}.

End Py.

(* ================================================================== *)
(** * The driver *)
(* ================================================================== *)

Module Replize.
Import Py.

(** ** What a session does: its trace *)

(** The prompt string, [prompt_template.format(command=..., count=...)].
    [str.format] is not computed: the prompt is kept as the call that makes
    it, and whether that call returns or raises is part of what the read
    step of a turn comes to (see [read_outcome]). *)
Record prompt : Type := Prompt {
  prompt_template_of : string;
  prompt_command : string;
  prompt_count : nat
}.

(** One constructor per message of the source. *)
Inductive message : Type :=
| CommandNotInPath (command : string)
| ExitingReplize
| InvalidHistoryReference (cmd : string)
| HelpText
| NoCommandHistory
| CommandHistoryHeader
| CommandHistoryLine (i : nat) (cmd : string)
| ReRunning (arguments_str : string)
| HistoryIndexOutOfRange (index : Z)
| PreCommandHookError (e : exc)
| CommandTimedOut (timeout : option nat)
| ReturnCode (returncode : Z)
| PostCommandHookError (e : exc)
| CommandNotFound (full_command : string)
| ErrorExecutingCommand (e : exc)
| Decoded (text : string).

(** Where a message goes: the rich console when there is one, else the
    standard output or the standard error. *)
Inductive stream : Type := Console | Stdout | Stderr.

Inductive event : Type :=
| EvInput (p : prompt)
| EvPrint (to : stream) (m : message)
| EvLogOpen (path : string)
| EvLogHeader (command : string)
| EvLogInput (p : prompt) (arguments_str : string)
| EvLogFlush
| EvLogOutput (text : string)
| EvLogClose
| EvClearScreen
| EvPreHook (i : nat) (command arguments_str : string)
| EvPostHook (i : nat) (command arguments_str : string)
    (returncode : Z) (stdout stderr : bytes)
| EvPopen (argv : list string)
| EvCommunicate (timeout : option nat)
| EvKill
| EvStdoutCallback (x : bytes)
| EvStderrCallback (x : bytes).

(** ** Computations that print and may raise *)

Definition io (A : Type) : Type := list event * (exc + A).

#[global] Instance io_ret : MRet io := fun A a => ([], inr a).

#[global] Instance io_bind : MBind io := fun A B k m =>
  match m with
  | (evs, inl e) => (evs, inl e)
  | (evs, inr a) => let '(evs', r) := k a in (evs ++ evs', r)
  end.

Definition raise {A} (e : exc) : io A := ([], inl e).

Definition emit_event (ev : event) : io unit := ([ev], inr tt).

(** [try: body except ...: handler].  [handler e] is [None] when no
    [except] clause catches [e]. *)
Definition try_except {A} (body : io A) (handler : exc -> option (io A)) : io A :=
  match body with
  | (evs, inl e) =>
      match handler e with
      | Some h => let '(evs', r) := h in (evs ++ evs', r)
      | None => (evs, inl e)
      end
  | (evs, inr a) => (evs, inr a)
  end.

(** The result of a call that returns nothing. *)
Definition returned (r : option exc) : io unit :=
  match r with
  | Some e => raise e
  | None => mret tt
  end.

(** ** Configuration and state *)

(** [pre_hook(command, arguments_str)]; [Some e] when the hook raises [e]. *)
Definition pre_hook : Type := string -> string -> option exc.

(** [post_hook(command, arguments_str, returncode, stdout, stderr)] *)
Definition post_hook : Type := string -> string -> Z -> bytes -> bytes -> option exc.

(** An output callback: the default [decode_and_print] or one of the
    caller's. *)
Inductive callback : Type :=
| decode_and_print
| user_callback (f : bytes -> option exc).

(** [ReplizeConfig] after [__init__], without the two mutable fields.  The
    options that only select the line editor are left out: the line reader
    is given by the lines it returns. *)
Record ReplizeConfig : Type := Config {
  command : string;
  prompt_template : string;
  exit_commands : gset string;
  exit_exceptions : list exc_class;
  stdout_callback : callback;
  stderr_callback : callback;
  console : bool;
  timeout : option nat;
  log_file : option string;
  pre_command_hooks : list pre_hook;
  post_command_hooks : list post_hook;
  verbose_exit : bool;
  show_return_code : bool;
  validate_command : bool
}.

(** The mutable fields of [ReplizeConfig]. *)
Record State : Type := St {
  command_counter : nat;
  session_history : list string
}.

Definition initial : State := St 0 [].

(** The defaults of [replize(command)] without the optional libraries. *)
Definition default_config (cmd : string) : ReplizeConfig := {|
  command := cmd;
  prompt_template := "{command} >>> ";
  exit_commands := list_to_set ["exit"; "quit"];
  exit_exceptions := [EOFError; KeyboardInterrupt];
  stdout_callback := decode_and_print;
  stderr_callback := decode_and_print;
  console := false;
  timeout := None;
  log_file := None;
  pre_command_hooks := [];
  post_command_hooks := [];
  verbose_exit := false;
  show_return_code := false;
  validate_command := true
|}.

(** [config.get_prompt()], when the call of [format] returns. *)
Definition get_prompt (config : ReplizeConfig) (st : State) : prompt :=
  Prompt (prompt_template config) (command config) (command_counter st).

(** [config.console.print(...)] when there is a console, else
    [print(..., file=plain)]. *)
Definition say (config : ReplizeConfig) (plain : stream) (m : message) : io unit :=
  emit_event (EvPrint (if console config then Console else plain) m).

(** What the first two statements of a turn, [config.get_prompt()] and
    the call of the line reader, come to: the prompt is formatted and the
    reader returns a line; the prompt is formatted and the reader raises;
    or [prompt_template.format] raises ([KeyError] for a field other than
    [command] and [count], [IndexError] for a positional field, [ValueError]
    for a malformed template) and the reader is not called. *)
Inductive read_outcome : Type :=
| Line (s : string)
| ReadRaises (e : exc)
| PromptRaises (e : exc).

(** ** Built-in commands *)

Definition when (b : bool) (m : io unit) : io unit := if b then m else mret tt.

(** [for i, x in enumerate(l, start=i): f(i, x)] *)
Fixpoint for_each {A} (f : nat -> A -> io unit) (i : nat) (l : list A) : io unit :=
  match l with
  | [] => mret tt
  | x :: rest => f i x;; for_each f (S i) rest
  end.

Definition _print_help (config : ReplizeConfig) : io unit :=
  say config Stdout HelpText.

Definition _print_history (config : ReplizeConfig) (st : State) : io unit :=
  match session_history st with
  | [] => say config Stdout NoCommandHistory
  | history =>
      say config Stdout CommandHistoryHeader;;
      for_each (fun i cmd => say config Stdout (CommandHistoryLine i cmd)) 0 history
  end.

(** [0 <= index < len(config.session_history)] *)
Definition in_history (st : State) (index : Z) : bool :=
  Z.leb 0 index && Z.ltb index (Z.of_nat (List.length (session_history st))).

(** Returns whether the line was handled. *)
Definition _handle_builtin_command (config : ReplizeConfig) (st : State)
    (arguments_str : string) : io bool :=
  match split arguments_str with
  | [] => mret false
  | cmd :: _ =>
      if bool_decide (cmd = "help") || bool_decide (cmd = "?") then
        _print_help config;; mret true
      else if bool_decide (cmd = "history") then
        _print_history config st;; mret true
      else if bool_decide (cmd = "clear") then
        emit_event EvClearScreen;; mret true
      else if startswith_bang cmd && Nat.ltb 1 (String.length cmd) then
        match int (drop1 cmd) with
        | Some index =>
            if in_history st index
            then mret false (* let it be re-executed *)
            else mret false
        | None =>
            say config Stderr (InvalidHistoryReference cmd);; mret true
        end
      else mret false
  end.

(** ** One turn of the loop *)

Inductive flow : Type := Continue | Break.

(** What the first half of a turn decides: the turn is over, or the
    argument string is to be executed. *)
Inductive verdict : Type :=
| Done (f : flow)
| Execute (arguments_str : string).

(** From the prompt to the history reference: reads a line and decides
    what to do with it.  The state is only read. *)
Definition read_and_dispatch (config : ReplizeConfig) (logging : bool)
    (st : State) (r : read_outcome) : io verdict :=
  let prompt_str := get_prompt config st in
  match r with
  | PromptRaises e => raise e
  | ReadRaises e => emit_event (EvInput prompt_str);; raise e
  | Line s =>
      emit_event (EvInput prompt_str);;
      let arguments_str := strip s in
      if bool_decide (arguments_str = "") then mret (Done Continue)
      else
        when logging
          (emit_event (EvLogInput prompt_str arguments_str);;
           emit_event EvLogFlush);;
        let first_word := hd "" (split arguments_str) in
        if bool_decide (first_word ∈ exit_commands config) then mret (Done Break)
        else
          handled ← _handle_builtin_command config st arguments_str;
          if handled : bool then mret (Done Continue)
          else if startswith_bang arguments_str
                  && Nat.ltb 1 (String.length arguments_str) then
            match int (drop1 arguments_str) with
            | Some index =>
                if in_history st index then
                  match session_history st !! Z.to_nat index with
                  | Some arguments_str =>
                      say config Stdout (ReRunning arguments_str);;
                      mret (Execute arguments_str)
                  | None => raise (Exc IndexError "list index out of range")
                  end
                else
                  say config Stderr (HistoryIndexOutOfRange index);;
                  mret (Done Continue)
            | None => mret (Execute arguments_str)
            end
          else mret (Execute arguments_str)
  end.

(** [except Exception as e: report e] *)
Definition except_Exception (report : exc -> io unit) (e : exc) : option (io unit) :=
  if isinstance e Exception then Some (report e) else None.

Definition run_pre_command_hooks (config : ReplizeConfig) (arguments_str : string)
  : io unit :=
  for_each
    (fun i (hook : pre_hook) =>
       try_except
         (emit_event (EvPreHook i (command config) arguments_str);;
          returned (hook (command config) arguments_str))
         (except_Exception
            (fun e => say config Stderr (PreCommandHookError e))))
    0 (pre_command_hooks config).

Definition run_post_command_hooks (config : ReplizeConfig) (arguments_str : string)
    (returncode : Z) (stdout stderr : bytes) : io unit :=
  for_each
    (fun i (hook : post_hook) =>
       try_except
         (emit_event
            (EvPostHook i (command config) arguments_str returncode stdout stderr);;
          returned (hook (command config) arguments_str returncode stdout stderr))
         (except_Exception
            (fun e => say config Stderr (PostCommandHookError e))))
    0 (post_command_hooks config).

Definition call_callback (w : world) (cb : callback) (x : bytes) : io unit :=
  match cb with
  | decode_and_print =>
      match decode w x with
      | Some text => emit_event (EvPrint Stdout (Decoded text))
      | None => raise (Exc UnicodeDecodeError "invalid start byte")
      end
  | user_callback f => returned (f x)
  end.

(** [log_file_handle.write(x.decode())] *)
Definition log_output (w : world) (x : bytes) : io unit :=
  match decode w x with
  | Some text => emit_event (EvLogOutput text)
  | None => raise (Exc UnicodeDecodeError "invalid start byte")
  end.

(** [shlex_split(full_command)] *)
Definition tokenize (full_command : string) : io (list string) :=
  match shlex_split full_command with
  | inr argv => mret argv
  | inl msg => raise (Exc ValueError msg)
  end.

Definition spawn (w : world) (argv : list string) : io process :=
  emit_event (EvPopen argv);;
  match Popen w argv with
  | inr p => mret p
  | inl e => raise e
  end.

(** The wait, with its [except TimeoutError] clause; returns the output
    and [process.returncode]. *)
Definition wait (config : ReplizeConfig) (p : process) : io (bytes * bytes * Z) :=
  try_except
    (emit_event (EvCommunicate (timeout config));;
     match communicate p (timeout config) with
     | inr (stdout, stderr) => mret (stdout, stderr, proc_returncode p)
     | inl e => raise e
     end)
    (fun e =>
       if isinstance e TimeoutError then
         Some (emit_event EvKill;;
               let '(stdout, stderr) := communicate_killed p in
               say config Stderr (CommandTimedOut (timeout config));;
               mret (stdout, stderr, killed_returncode))
       else None).

Definition full_command (config : ReplizeConfig) (arguments_str : string) : string :=
  command config +:+ " " +:+ arguments_str.

(** Inside the [try] block, once the child is spawned: the wait, the
    routing of the output, the return code and the post-command hooks. *)
Definition attend (config : ReplizeConfig) (w : world) (logging : bool)
    (arguments_str : string) (p : process) : io unit :=
  '(stdout, stderr, returncode) ← wait config p;
  when (negb (bool_decide (stdout = [])))
    (emit_event (EvStdoutCallback stdout);;
     call_callback w (stdout_callback config) stdout;;
     when logging (log_output w stdout));;
  when (negb (bool_decide (stderr = [])))
    (emit_event (EvStderrCallback stderr);;
     call_callback w (stderr_callback config) stderr;;
     when logging (log_output w stderr));;
  when (show_return_code config && negb (bool_decide (returncode = 0%Z)))
    (say config Stderr (ReturnCode returncode));;
  run_post_command_hooks config arguments_str returncode stdout stderr.

(** The [try] block around [Popen] with its two [except] clauses. *)
Definition execute_command (config : ReplizeConfig) (w : world) (logging : bool)
    (arguments_str : string) : io unit :=
  try_except
    (argv ← tokenize (full_command config arguments_str);
     p ← spawn w argv;
     attend config w logging arguments_str p)
    (fun e =>
       if isinstance e FileNotFoundError then
         Some (say config Stderr (CommandNotFound (full_command config arguments_str)))
       else
         except_Exception
           (fun e => say config Stderr (ErrorExecutingCommand e)) e).

(** How a turn ends. *)
Inductive outcome : Type :=
| Continues
| Breaks
| Raises (e : exc).

(** [except config.exit_exceptions: break] around the whole turn. *)
Definition at_loop_level (config : ReplizeConfig) (e : exc) : outcome :=
  if isinstance_any e (exit_exceptions config) then Breaks else Raises e.

Definition record (arguments_str : string) (st : State) : State :=
  St (command_counter st) (session_history st ++ [arguments_str]).

Definition count (st : State) : State :=
  St (command_counter st + 1) (session_history st).

(** One turn of [while True:]. *)
Definition turn (config : ReplizeConfig) (w : world) (logging : bool)
    (st : State) (r : read_outcome) : State * list event * outcome :=
  match read_and_dispatch config logging st r with
  | (evs, inl e) => (st, evs, at_loop_level config e)
  | (evs, inr (Done Continue)) => (st, evs, Continues)
  | (evs, inr (Done Break)) => (st, evs, Breaks)
  | (evs, inr (Execute arguments_str)) =>
      let st := record arguments_str st in
      match run_pre_command_hooks config arguments_str;;
            execute_command config w logging arguments_str with
      | (evs', inl e) => (st, evs ++ evs', at_loop_level config e)
      | (evs', inr _) => (count st, evs ++ evs', Continues)
      end
  end.

(** ** The loop and its caller *)

(** How the loop is left: by [break], or by an exception it does not
    catch. *)
Inductive ending : Type :=
| Returned
| Raised (e : exc).

(** [_run_repl_loop(config, session, log_file_handle)] on what the read
    steps come to; when they are used up the reader raises [EOFError]. *)
Fixpoint _run_repl_loop (config : ReplizeConfig) (w : world) (logging : bool)
    (st : State) (inputs : list read_outcome) : State * list event * ending :=
  match inputs with
  | [] =>
      match at_loop_level config (Exc EOFError "EOF when reading a line") with
      | Raises e => (st, [EvInput (get_prompt config st)], Raised e)
      | _ => (st, [EvInput (get_prompt config st)], Returned)
      end
  | r :: inputs =>
      match turn config w logging st r with
      | (st, evs, Continues) =>
          let '(st, evs', e) := _run_repl_loop config w logging st inputs in
          (st, evs ++ evs', e)
      | (st, evs, Breaks) => (st, evs, Returned)
      | (st, evs, Raises e) => (st, evs, Raised e)
      end
  end.

(** [' ' in command] *)
Fixpoint contains_space (s : string) : bool :=
  match s with
  | EmptyString => false
  | String c r => bool_decide (c = " "%char) || contains_space r
  end.

(** [None] stands for the [IndexError] of [command.split()[0]]. *)
Definition validate_base_command (w : world) (cmd : string) : option bool :=
  if contains_space cmd then
    match split cmd with
    | base_cmd :: _ => Some (which w base_cmd)
    | [] => None
    end
  else Some (which w cmd).

(** [if config.log_file:] the name of the log file, when one is given and
    is not the empty string. *)
Definition log_path (config : ReplizeConfig) : option string :=
  match log_file config with
  | Some path => if bool_decide (path = "") then None else Some path
  | None => None
  end.

(** [finally:] of [replize] *)
Definition finally (config : ReplizeConfig) (logging : bool) : list event :=
  (if logging then [EvLogClose] else [])
  ++ (if verbose_exit config
      then [EvPrint (if console config then Console else Stdout) ExitingReplize]
      else []).

(** [replize(command, ...)], from the configuration it builds. *)
Definition replize (config : ReplizeConfig) (w : world) (inputs : list read_outcome)
  : State * list event * ending :=
  let valid :=
    if validate_command config
    then validate_base_command w (command config)
    else Some true in
  match valid with
  | None => (initial, [], Raised (Exc IndexError "list index out of range"))
  | Some false =>
      (initial,
       [EvPrint (if console config then Console else Stderr)
          (CommandNotInPath (command config))],
       Returned)
  | Some true =>
      match log_path config with
      | Some path =>
          match open_append w path with
          | Some e => (initial, [EvLogOpen path], Raised e)
          | None =>
              let '(st, evs, e) := _run_repl_loop config w true initial inputs in
              (st,
               [EvLogOpen path; EvLogHeader (command config)] ++ evs
                 ++ finally config true, e)
          end
      | None =>
          let '(st, evs, e) := _run_repl_loop config w false initial inputs in
          (st, evs ++ finally config false, e)
      end
  end.

End Replize.

(* ================================================================== *)
(** * Configuration files and the command line *)
(* ================================================================== *)

Module Cli.
Import Py.

(** ** Values of a configuration file *)

(** What a TOML or YAML file holds.  Numbers are integers, like the times
    of the driver. *)
#[warning="-register-all"] Inductive value : Type :=
| VNone
| VBool (b : bool)
| VNum (n : Z)
| VStr (s : string)
| VList (l : list value)
| VDict (d : gmap string value).

(** Two built-in classes the driver itself never meets. *)
Definition AttributeError : exc_class := UserClass "AttributeError" Exception.
Definition TypeError : exc_class := UserClass "TypeError" Exception.

(** [bool(v)] *)
Definition truthy (v : value) : bool :=
  match v with
  | VNone => false
  | VBool b => b
  | VNum n => negb (Z.eqb n 0)
  | VStr s => negb (bool_decide (s = ""))
  | VList l => match l with [] => false | _ => true end
  | VDict d => match map_to_list d with [] => false | _ => true end
  end.

(** [v.get(key, fallback)]; only a dict has the method. *)
Definition get (v : value) (key : string) (fallback : value) : exc + value :=
  match v with
  | VDict d => inr (default fallback (d !! key))
  | _ => inl (Exc AttributeError "object has no attribute 'get'")
  end.

(** [v.items()], as the map it enumerates. *)
Definition items (v : value) : exc + gmap string value :=
  match v with
  | VDict d => inr d
  | _ => inl (Exc AttributeError "object has no attribute 'items'")
  end.

(** ** Paths *)

(** A [Path], by its components. *)
Definition path : Type := list string.

(** The index of the last dot of a name, if any: [name.rfind('.')]. *)
Fixpoint rfind_dot (name : string) : option nat :=
  match name with
  | EmptyString => None
  | String c r =>
      match rfind_dot r with
      | Some i => Some (S i)
      | None => if bool_decide (c = "."%char) then Some 0 else None
      end
  end.

(** [name[i:]] *)
Fixpoint drop_chars (i : nat) (name : string) : string :=
  match i, name with
  | S i, String _ r => drop_chars i r
  | _, _ => name
  end.

(** [p.suffix]: the last component from its last dot on, unless the dot
    starts or ends the component. *)
Definition suffix (p : path) : string :=
  let name := default "" (last p) in
  match rfind_dot name with
  | Some i =>
      if Nat.ltb 0 i && Nat.ltb i (String.length name - 1)
      then drop_chars i name
      else ""
  | None => ""
  end.

(** The files of the machine and the parsers that are installed. *)
Record files : Type := Files {
  (** [Path.home()] *)
  home : path;
  (** [Path(s)] *)
  to_path : string -> path;
  (** [p.exists()] *)
  exists_ : path -> bool;
  (** [tomllib is not None] *)
  has_tomllib : bool;
  (** [HAS_YAML] *)
  has_yaml : bool;
  (** [open(p, 'rb')] and [tomllib.load] *)
  toml_load : path -> exc + gmap string value;
  (** [open(p, 'r')] and [yaml.safe_load] *)
  yaml_load : path -> exc + value
}.

Inductive warning : Type :=
| TomlNotAvailable (p : path)
| YamlNotAvailable (p : path)
| UnknownFormat (p : path).

(** The default locations, in the order they are tried. *)
Definition default_paths (fs : files) : list path :=
  [home fs ++ [".replizerc"];
   home fs ++ [".replize.toml"];
   home fs ++ [".config"; "replize"; "config.toml"];
   home fs ++ [".replize.yaml"];
   home fs ++ [".config"; "replize"; "config.yaml"]].

(** [for path in paths: if path.exists(): ... break] *)
Fixpoint first_existing (fs : files) (paths : list path) : option path :=
  match paths with
  | [] => None
  | p :: paths => if exists_ fs p then Some p else first_existing fs paths
  end.

(** The outcome of [load_config_file]: the warnings printed on the
    standard error, and the dict returned or the exception raised. *)
Definition loaded : Type := list warning * (exc + value).

(** From [config_path = Path(config_path)] on. *)
Definition load_path (fs : files) (config_path : path) : loaded :=
  if negb (exists_ fs config_path) then ([], inr (VDict ∅))
  else if bool_decide (suffix config_path ∈ [".toml"]) then
    if negb (has_tomllib fs) then ([TomlNotAvailable config_path], inr (VDict ∅))
    else
      match toml_load fs config_path with
      | inr d => ([], inr (VDict d))
      | inl e => ([], inl e)
      end
  else if bool_decide (suffix config_path ∈ [".yaml"; ".yml"]) then
    if negb (has_yaml fs) then ([YamlNotAvailable config_path], inr (VDict ∅))
    else
      match yaml_load fs config_path with
      | inr v => ([], inr (if truthy v then v else VDict ∅))
      | inl e => ([], inl e)
      end
  else ([UnknownFormat config_path], inr (VDict ∅)).

(** [load_config_file(config_path)] *)
Definition load_config_file (fs : files) (config_path : option string) : loaded :=
  match config_path with
  | None =>
      match first_existing fs (default_paths fs) with
      | Some p => load_path fs p
      | None => ([], inr (VDict ∅))
      end
  | Some s => load_path fs (to_path fs s)
  end.

(** ** The command line *)

(** What [parser.parse_args()] returns. *)
Record Namespace : Type := Args {
  arg_command : string;
  arg_prompt_template : string;
  arg_exit_commands : list string;
  arg_no_rich : bool;
  arg_no_prompt_toolkit : bool;
  arg_history_file : option string;
  arg_log_file : option string;
  arg_timeout : option Z;
  arg_show_return_code : bool;
  arg_no_validate : bool;
  arg_config : option string
}.

(** [if s:] for an optional string. *)
Definition given (s : option string) : option string :=
  match s with
  | Some s => if bool_decide (s = "") then None else Some s
  | None => None
  end.

(** [if b: kwargs[key] = v] *)
Definition set_if (b : bool) (key : string) (v : value)
    (kwargs : gmap string value) : gmap string value :=
  if b then <[key := v]> kwargs else kwargs.

(** [if s: kwargs[key] = s] *)
Definition set_given (s : option string) (key : string)
    (kwargs : gmap string value) : gmap string value :=
  match given s with
  | Some s => <[key := VStr s]> kwargs
  | None => kwargs
  end.

(** [if t: kwargs['timeout'] = t] *)
Definition set_timeout (t : option Z) (kwargs : gmap string value)
  : gmap string value :=
  match t with
  | Some n => if Z.eqb n 0 then kwargs else <["timeout" := VNum n]> kwargs
  | None => kwargs
  end.

(** The keyword arguments: the defaults of the file, then the table of
    the command, then the command line. *)
Definition merge_kwargs (args : Namespace) (defaults cmd_config : gmap string value)
  : gmap string value :=
  let kwargs := cmd_config ∪ defaults in
  let kwargs := <["prompt_template" := VStr (arg_prompt_template args)]> kwargs in
  let kwargs :=
    <["exit_commands" := VList (VStr <$> arg_exit_commands args)]> kwargs in
  let kwargs := set_if (arg_no_rich args) "use_rich" (VBool false) kwargs in
  let kwargs :=
    set_if (arg_no_prompt_toolkit args) "use_prompt_toolkit" (VBool false) kwargs in
  let kwargs := set_given (arg_history_file args) "history_file" kwargs in
  let kwargs := set_given (arg_log_file args) "log_file" kwargs in
  let kwargs := set_timeout (arg_timeout args) kwargs in
  let kwargs :=
    set_if (arg_show_return_code args) "show_return_code" (VBool true) kwargs in
  set_if (arg_no_validate args) "validate_command" (VBool false) kwargs.

(** The parameters of [replize] and [ReplizeConfig] besides [command]. *)
Definition replize_parameters : list string :=
  ["prompt_template"; "exit_commands"; "exit_exceptions"; "stdout_callback";
   "stderr_callback"; "use_rich"; "use_prompt_toolkit"; "history_file";
   "enable_history"; "enable_completion"; "enable_syntax_highlighting";
   "timeout"; "log_file"; "pre_command_hooks"; "post_command_hooks";
   "verbose_exit"; "show_return_code"; "validate_command"].

(** The binding of [replize(command=..., **kwargs)]: [command] must not
    come twice and every keyword must be a parameter. *)
Definition bind_arguments (kwargs : gmap string value) : exc + gmap string value :=
  if bool_decide ("command" ∈ dom kwargs) then
    inl (Exc TypeError "got multiple values for keyword argument 'command'")
  else if bool_decide (set_Forall (fun key => key ∈ replize_parameters) (dom kwargs))
  then inr kwargs
  else inl (Exc TypeError "got an unexpected keyword argument").

(** [_replize_cli()] after the parsing of the command line, up to the
    call of [replize]: the warnings, and the keyword arguments [replize]
    is called with or the exception raised before. *)
Definition _replize_cli (fs : files) (args : Namespace)
  : list warning * (exc + gmap string value) :=
  let '(warnings, config_dict) :=
    match given (arg_config args) with
    | Some s => load_config_file fs (Some s)
    | None => ([], inr (VDict ∅))
    end in
  (warnings,
   match config_dict with
   | inl e => inl e
   | inr config_dict =>
       match get config_dict "commands" (VDict ∅) with
       | inl e => inl e
       | inr commands =>
           match get commands (arg_command args) (VDict ∅) with
           | inl e => inl e
           | inr cmd_config =>
               match get config_dict "defaults" (VDict ∅) with
               | inl e => inl e
               | inr defaults =>
                   match items defaults with
                   | inl e => inl e
                   | inr defaults =>
                       match items cmd_config with
                       | inl e => inl e
                       | inr cmd_config =>
                           bind_arguments (merge_kwargs args defaults cmd_config)
                       end
                   end
               end
           end
       end
   end).

End Cli.

(* ================================================================== *)
(** * Vocabulary of the statements *)
(* ================================================================== *)

Module Terms.
Import Py Replize Cli.

(** Every character of [s] satisfies [p]. *)
Fixpoint string_forall (p : ascii -> bool) (s : string) : bool :=
  match s with
  | EmptyString => true
  | String c r => p c && string_forall p r
  end.

(** [s.isspace()] or [s] is empty. *)
Definition blank (s : string) : bool := string_forall isspace s.

(** [s] has no whitespace. *)
Definition spaceless (s : string) : bool := string_forall (fun c => negb (isspace c)) s.

Definition digits (s : string) : bool := string_forall isdigit s.

(** The events every turn on a non-empty line starts with: the prompt and,
    when a log is open, the echo of the line. *)
Definition prelude (config : ReplizeConfig) (logging : bool) (st : State)
    (arguments_str : string) : list event :=
  EvInput (get_prompt config st)
  :: (if logging
      then [EvLogInput (get_prompt config st) arguments_str; EvLogFlush]
      else []).

(** The argument vectors of the processes a trace spawns, in order. *)
Fixpoint spawned (evs : list event) : list (list string) :=
  match evs with
  | [] => []
  | EvPopen argv :: evs => argv :: spawned evs
  | _ :: evs => spawned evs
  end.

(** The stream of a message, as [say] picks it. *)
Definition to (config : ReplizeConfig) (plain : stream) : stream :=
  if console config then Console else plain.

(** The computation returns: it does not raise. *)
Definition returns {A} (m : io A) : Prop := exists a, m.2 = inr a.

(** Whatever the computation raises derives from [Exception]. *)
Definition only_errors {A} (m : io A) : Prop :=
  forall e, m.2 = inl e -> isinstance e Exception = true.

(** The hooks raise nothing but exceptions that derive from [Exception]. *)
Definition hooks_raise_errors (config : ReplizeConfig) : Prop :=
  (forall hook cmd a e,
     hook ∈ pre_command_hooks config -> hook cmd a = Some e ->
     isinstance e Exception = true)
  /\ (forall hook cmd a rc out err e,
        hook ∈ post_command_hooks config -> hook cmd a rc out err = Some e ->
        isinstance e Exception = true).

Definition callback_raises_errors (cb : callback) : Prop :=
  match cb with
  | decode_and_print => True
  | user_callback f => forall x e, f x = Some e -> isinstance e Exception = true
  end.

(** Nothing that runs during a turn, after the line is read, raises an
    exception that does not derive from [Exception]: neither the hooks, nor
    the output callbacks, nor the spawn, nor the wait for the child. *)
Definition raises_errors_only (config : ReplizeConfig) (w : world) : Prop :=
  hooks_raise_errors config
  /\ callback_raises_errors (stdout_callback config)
  /\ callback_raises_errors (stderr_callback config)
  /\ (forall argv e, Popen w argv = inl e -> isinstance e Exception = true)
  /\ (forall argv p e,
        Popen w argv = inr p -> proc_wait_error p = Some e ->
        isinstance e Exception = true).

(** The first word of the trimmed line, as the exit test reads it. *)
Definition first_word (s : string) : string := hd "" (split (strip s)).

(** Every event of the computation satisfies [P]. *)
Definition only_events (P : event -> bool) {A} (m : io A) : Prop :=
  forallb P m.1 = true.

Definition is_spawn (ev : event) : bool :=
  match ev with
  | EvPopen _ => true
  | _ => false
  end.


Definition is_hook_call (ev : event) : bool :=
  match ev with
  | EvPreHook _ _ _ | EvPostHook _ _ _ _ _ _ => true
  | _ => false
  end.

(** [s] has neither quotes nor backslashes. *)
Definition plain (s : string) : bool :=
  string_forall (fun c => negb (shlex_quote c) && negb (shlex_escape c)) s.

(** [s] has neither the quote [q] nor a backslash. *)
Definition lacks (q : ascii) (s : string) : bool :=
  string_forall (fun c => negb (bool_decide (c = q)) && negb (shlex_escape c)) s.

(** The tokens of a later part put after [tokens]; an error stays an
    error. *)
Definition prepend (tokens : list string) (later : string + list string)
  : string + list string :=
  match later with
  | inl msg => inl msg
  | inr rest => inr (tokens ++ rest)
  end.

(** The lines that are not commands for the base program: blank lines,
    exit words, built-in commands, and history references that are not a
    number or are out of range. *)
Definition builtin_words : list string := ["help"; "?"; "history"; "clear"].

Inductive not_a_command (config : ReplizeConfig) (st : State) (s : string) : Prop :=
| is_blank :
    blank s = true -> not_a_command config st s
| is_exit_word :
    first_word s ∈ exit_commands config -> not_a_command config st s
| is_builtin :
    first_word s ∈ builtin_words -> not_a_command config st s
| is_invalid_reference n :
    first_word s = String "!" n -> n <> "" -> int n = None ->
    not_a_command config st s
| is_out_of_range n index :
    strip s = String "!" n -> spaceless n = true ->
    int n = Some index -> in_history st index = false ->
    not_a_command config st s.






Fixpoint post_hooks_trace (config : ReplizeConfig) (a : string)
    (rc : Z) (out err : bytes) (i : nat) (hooks : list post_hook) : list event :=
  match hooks with
  | [] => []
  | hook :: hooks =>
      EvPostHook i (command config) a rc out err
      :: match hook (command config) a rc out err with
         | Some e => [EvPrint (to config Stderr) (PostCommandHookError e)]
         | None => []
         end
      ++ post_hooks_trace config a rc out err (S i) hooks
  end.




(** A machine for examples: every command exists and exits at once with
    no output. *)
Definition quiet_process : process := Process 0 [] [] 0 [] [] None.

Definition quiet_world : world :=
  World (fun _ => inr quiet_process) (fun _ => Some "") (fun _ => true)
        (fun _ => None).

(** A machine where every command runs for five ticks and has written
    one byte by the time it could be killed, and a session with a timeout
    of one tick. *)
Definition slow_process : process :=
  Process 5 [Byte.x61] [] 0 [Byte.x61] [] None.

Definition slow_world : world :=
  World (fun _ => inr slow_process) (fun _ => Some "a") (fun _ => true)
        (fun _ => None).

Definition timeout_config : ReplizeConfig := {|
  command := "sleep";
  prompt_template := "{command} >>> ";
  exit_commands := list_to_set ["exit"; "quit"];
  exit_exceptions := [EOFError; KeyboardInterrupt];
  stdout_callback := decode_and_print;
  stderr_callback := decode_and_print;
  console := false;
  timeout := Some 1;
  log_file := None;
  pre_command_hooks := [];
  post_command_hooks := [];
  verbose_exit := false;
  show_return_code := false;
  validate_command := true
|}.


(** What the [history] command prints. *)
Definition history_listing (config : ReplizeConfig) (st : State) : list event :=
  match session_history st with
  | [] => [EvPrint (to config Stdout) NoCommandHistory]
  | history =>
      EvPrint (to config Stdout) CommandHistoryHeader
      :: imap (fun i cmd => EvPrint (to config Stdout) (CommandHistoryLine i cmd))
           history
  end.

(** A history entry as the loop records them: trimmed, not empty, and not
    starting with an exit word. *)
Definition recordable (config : ReplizeConfig) (a : string) : Prop :=
  strip a = a /\ a <> "" /\ first_word a ∉ exit_commands config.


Definition is_log_event (ev : event) : bool :=
  match ev with
  | EvLogOpen _ | EvLogHeader _ | EvLogInput _ _ | EvLogFlush
  | EvLogOutput _ | EvLogClose => true
  | _ => false
  end.

Definition is_kill (ev : event) : bool :=
  match ev with
  | EvKill => true
  | _ => false
  end.


(** The tokenizer holds the beginning of a token: whatever comes next,
    a token will be returned. *)
Definition pending (state : lex_state) (token : string) (quoted : bool) : Prop :=
  match state with
  | InWhitespace | InWord => token <> "" \/ quoted = true
  | InQuotes _ | InEscape _ => True
  end.

(** No process is spawned with an empty argument vector. *)
Definition spawns_a_command (ev : event) : Prop :=
  match ev with
  | EvPopen argv => argv <> []
  | _ => True
  end.

(** A machine where the wait for every child raises the built-in
    [TimeoutError]. *)
Definition stalled_world : world :=
  World (fun _ => inr (Process 5 [] [] 0 [Byte.x61] []
                         (Some (Exc TimeoutError "timed out"))))
        (fun _ => Some "a") (fun _ => true) (fun _ => None).

(** The report of the [except] clauses around the executor. *)
Definition execution_report (config : ReplizeConfig) (a : string) (e : exc)
  : event :=
  EvPrint (to config Stderr)
    (if isinstance e FileNotFoundError
     then CommandNotFound (full_command config a)
     else ErrorExecutingCommand e).

(** A session whose standard-output callback always raises an error. *)
Definition raising_callback_config : ReplizeConfig := {|
  command := "ls";
  prompt_template := "{command} >>> ";
  exit_commands := list_to_set ["exit"; "quit"];
  exit_exceptions := [EOFError; KeyboardInterrupt];
  stdout_callback := user_callback (fun _ => Some (Exc ValueError "bad output"));
  stderr_callback := decode_and_print;
  console := false;
  timeout := None;
  log_file := None;
  pre_command_hooks := [];
  post_command_hooks := [fun _ _ _ _ _ => None];
  verbose_exit := false;
  show_return_code := true;
  validate_command := true
|}.

(** A machine where every command writes to both streams and fails. *)
Definition noisy_world : world :=
  World (fun _ => inr (Process 0 [Byte.x61] [Byte.x62] 2 [] [] None))
        (fun _ => Some "a") (fun _ => true) (fun _ => None).

(** The keys the command line may write. *)
Definition cli_keys : list string :=
  ["prompt_template"; "exit_commands"; "use_rich"; "use_prompt_toolkit";
   "history_file"; "log_file"; "timeout"; "show_return_code";
   "validate_command"].

(** What the configuration file says about a key: the table of the
    command first, then the defaults. *)
Definition from_file (defaults cmd_config : gmap string value) (key : string)
  : option value :=
  match cmd_config !! key with
  | Some v => Some v
  | None => defaults !! key
  end.

(** A command line with nothing but the command, as the parser returns
    it. *)
Definition bare_args (cmd : string) : Namespace := {|
  arg_command := cmd;
  arg_prompt_template := "{command} >>> ";
  arg_exit_commands := ["exit"; "quit"];
  arg_no_rich := false;
  arg_no_prompt_toolkit := false;
  arg_history_file := None;
  arg_log_file := None;
  arg_timeout := None;
  arg_show_return_code := false;
  arg_no_validate := false;
  arg_config := None
|}.

(** The keys of a map are all parameters of [replize]. *)
Definition known_keys (kwargs : gmap string value) : Prop :=
  forall key, key ∈ dom kwargs -> key ∈ replize_parameters.

(** A session with callbacks and a post-command hook that always
    return, showing return codes. *)
Definition routing_config : ReplizeConfig := {|
  command := "ls";
  prompt_template := "{command} >>> ";
  exit_commands := list_to_set ["exit"; "quit"];
  exit_exceptions := [EOFError; KeyboardInterrupt];
  stdout_callback := user_callback (fun _ => None);
  stderr_callback := user_callback (fun _ => None);
  console := false;
  timeout := None;
  log_file := None;
  pre_command_hooks := [];
  post_command_hooks := [fun _ _ _ _ _ => None];
  verbose_exit := false;
  show_return_code := true;
  validate_command := true
|}.

(** The number a run of decimal digits denotes, after the digits [acc]
    stands for. *)
Fixpoint numeral (acc : Z) (s : string) : Z :=
  match s with
  | EmptyString => acc
  | String c r => numeral (10 * acc + (Z.of_nat (nat_of_ascii c) - 48)) r
  end.

Definition number (s : string) : Z := numeral 0 s.

(** [c * n] *)
Fixpoint repeated (c : ascii) (n : nat) : string :=
  match n with
  | 0 => EmptyString
  | S n => String c (repeated c n)
  end.

(** Every reference [!n] whose number is the position of an entry is
    resolved to that entry. *)
Definition resolves_every_position (config : ReplizeConfig) : Prop :=
  forall logging st n entry,
    n <> "" -> digits n = true ->
    String "!" n ∉ exit_commands config ->
    session_history st !! Z.to_nat (number n) = Some entry ->
    (read_and_dispatch config logging st (Line (String "!" n))).2
    = inr (Execute entry).

(** Every line made of a bang, digits, whitespace and more text is
    appended to the session history as it is. *)
Definition records_every_bang_text (config : ReplizeConfig) (w : world) : Prop :=
  forall logging st d sp t,
    d <> "" -> digits d = true -> isspace sp = true ->
    strip (String "!" (d +:+ String sp t)) = String "!" (d +:+ String sp t) ->
    String "!" d ∉ exit_commands config ->
    session_history
      (turn config w logging st (Line (String "!" (d +:+ String sp t)))).1.1
    = session_history st ++ [String "!" (d +:+ String sp t)].

(** What the tokenizer raises at the end of [s] when [s] follows the
    opening quote [q] and does not close it; [None] when [s] has the closing
    quote.  Inside double quotes a backslash takes the next character with
    it; [escaped] tells that the previous character was such a backslash. *)
Fixpoint unclosed (q : ascii) (escaped : bool) (s : string) : option string :=
  match s with
  | EmptyString =>
      Some (if escaped then "No escaped character" else "No closing quotation")
  | String c r =>
      if escaped then unclosed q false r
      else if bool_decide (c = q) then None
      else if shlex_escape c && shlex_escapedquote q then unclosed q true r
      else unclosed q false r
  end.


(** A session whose log file name is the empty string. *)
Definition unnamed_log_config : ReplizeConfig := {|
  command := "ls";
  prompt_template := "{command} >>> ";
  exit_commands := list_to_set ["exit"; "quit"];
  exit_exceptions := [EOFError; KeyboardInterrupt];
  stdout_callback := decode_and_print;
  stderr_callback := decode_and_print;
  console := false;
  timeout := None;
  log_file := Some "";
  pre_command_hooks := [];
  post_command_hooks := [];
  verbose_exit := false;
  show_return_code := false;
  validate_command := true
|}.

End Terms.

(* ================================================================== *)
(** * Facts about the runtime fragment *)
(* ================================================================== *)

Import Py Replize Cli Terms.

Section StringFacts.

Lemma append_nil_l (s : string) : "" +:+ s = s.
Proof. reflexivity. Qed.

Lemma append_cons (c : ascii) (s r : string) : String c s +:+ r = String c (s +:+ r).
Proof. reflexivity. Qed.

Lemma append_nil_r (s : string) : s +:+ "" = s.
Proof. induction s as [|c s IH]; [done | by rewrite append_cons, IH]. Qed.

Lemma append_snoc (s : string) (c : ascii) (r : string) :
  (s +:+ String c "") +:+ r = s +:+ String c r.
Proof. induction s as [|d s IH]; [done | by rewrite !append_cons, IH]. Qed.

Lemma rstrip_blank (s : string) : blank s = true -> rstrip s = "".
Proof.
  unfold blank, spaceless, digits in *.
  induction s as [|c s IH]; simpl; [done |].
  intros [Hc Hs]%andb_prop. rewrite (IH Hs). by rewrite Hc.
Qed.

Lemma strip_blank (s : string) : blank s = true -> strip s = "".
Proof. intros H. unfold strip. by rewrite rstrip_blank. Qed.

(** What [rstrip] returns has no trailing whitespace. *)
Lemma rstrip_idemp (s : string) : rstrip (rstrip s) = rstrip s.
Proof.
  induction s as [|c s IH]; simpl; [done |].
  destruct (rstrip s) as [|d u] eqn:E.
  - destruct (isspace c) eqn:Hc; simpl; [done | by rewrite Hc].
  - simpl in *. by rewrite IH.
Qed.

Lemma rstrip_lstrip (s : string) : rstrip s = s -> rstrip (lstrip s) = lstrip s.
Proof.
  induction s as [|c s IH]; simpl; [done |].
  destruct (rstrip s) as [|d u] eqn:E.
  - destruct (isspace c) eqn:Hc; [done |].
    intros [= <-]. simpl. by rewrite Hc.
  - intros [= Hs]. destruct (isspace c) eqn:Hc.
    + apply IH. congruence.
    + simpl. rewrite E. by rewrite Hs.
Qed.

Lemma rstrip_strip (s : string) : rstrip (strip s) = strip s.
Proof. unfold strip. apply rstrip_lstrip, rstrip_idemp. Qed.

(** A trimmed string that starts with a visible character: its tail is
    trimmed on the right too. *)
Lemma rstrip_tail (c d : ascii) (s : string) :
  rstrip (String c (String d s)) = String c (String d s) ->
  isspace d = false ->
  rstrip (String d s) = String d s.
Proof.
  intros H Hd. simpl in *.
  destruct (rstrip s) as [|e u] eqn:E.
  - rewrite Hd in *. congruence.
  - congruence.
Qed.

Lemma lstrip_visible (c : ascii) (s : string) :
  isspace c = false -> lstrip (String c s) = String c s.
Proof. intros H. simpl. by rewrite H. Qed.

Lemma rstrip_spaceless (s : string) : spaceless s = true -> rstrip s = s.
Proof.
  unfold blank, spaceless, digits in *.
  induction s as [|c s IH]; simpl; [done |].
  intros [Hc Hs]%andb_prop. rewrite (IH Hs).
  apply negb_true_iff in Hc. rewrite Hc. by destruct s.
Qed.

Lemma strip_spaceless (s : string) : spaceless s = true -> strip s = s.
Proof.
  unfold blank, spaceless, digits in *.
  intros H. unfold strip. rewrite rstrip_spaceless by done.
  destruct s as [|c s]; [done |]. simpl in H.
  apply andb_prop in H as [Hc _]. apply negb_true_iff in Hc.
  by apply lstrip_visible.
Qed.

(** ** [split] *)

Lemma split_from_word (w : string) (s : string) :
  spaceless s = true -> split_from (Some w) s = [w +:+ s].
Proof.
  unfold blank, spaceless, digits in *.
  revert w. induction s as [|c s IH]; intros w; simpl.
  - by rewrite append_nil_r.
  - intros [Hc Hs]%andb_prop. apply negb_true_iff in Hc. rewrite Hc.
    rewrite IH by done. by rewrite append_snoc.
Qed.

Lemma split_from_word_space (w d : string) (sp : ascii) (t : string) :
  spaceless d = true -> isspace sp = true ->
  split_from (Some w) (d +:+ String sp t) = (w +:+ d) :: split_from None t.
Proof.
  unfold blank, spaceless, digits in *.
  revert w. induction d as [|c d IH]; intros w; rewrite ?append_nil_l, ?append_cons; simpl.
  - intros _ ->. by rewrite append_nil_r.
  - intros [Hc Hd]%andb_prop Hsp. apply negb_true_iff in Hc. rewrite Hc.
    rewrite IH by done. by rewrite append_snoc.
Qed.

(** The first word of a line that starts with a visible character. *)
Lemma split_visible (c : ascii) (s : string) :
  isspace c = false ->
  split (String c s) = split_from (Some (String c "")) s.
Proof. intros H. unfold split. simpl. by rewrite H. Qed.

Lemma split_one_word (c : ascii) (s : string) :
  isspace c = false -> spaceless s = true -> split (String c s) = [String c s].
Proof. intros Hc Hs. rewrite split_visible by done. by rewrite split_from_word. Qed.

(** ** [int] *)

Lemma isdigit_visible (c : ascii) : isdigit c = true -> isspace c = false.
Proof.
  unfold isdigit, isspace. generalize (nat_of_ascii c). intros n H.
  apply andb_prop in H as [H1 H2].
  apply Nat.leb_le in H1. apply Nat.leb_le in H2.
  apply orb_false_iff; split; apply andb_false_iff.
  - right. apply Nat.leb_gt. lia.
  - right. apply Nat.leb_gt. lia.
Qed.

Lemma digits_spaceless (s : string) : digits s = true -> spaceless s = true.
Proof.
  unfold blank, spaceless, digits in *.
  induction s as [|c s IH]; simpl; [done |].
  intros [Hc Hs]%andb_prop. rewrite (isdigit_visible _ Hc). simpl. by apply IH.
Qed.

Lemma isspace_not_digit (c : ascii) : isspace c = true -> isdigit c = false.
Proof.
  intros H. destruct (isdigit c) eqn:E; [|done].
  apply isdigit_visible in E. congruence.
Qed.

Lemma isspace_not_underscore (c : ascii) : isspace c = true -> c <> "_"%char.
Proof. by intros H ->. Qed.

Lemma isdigit_not_sign (c : ascii) :
  isdigit c = true -> c <> "+"%char /\ c <> "-"%char.
Proof. intros H. split; by intros ->. Qed.

(** Digits followed by whitespace and more text are not a number. *)
Lemma int_digits_space (b : bool) (acc : Z) (d : string) (sp : ascii) (t : string) :
  digits d = true -> isspace sp = true ->
  int_digits b acc (d +:+ String sp t) = None.
Proof.
  unfold blank, spaceless, digits in *.
  revert b acc. induction d as [|c d IH]; intros b acc;
    rewrite ?append_nil_l, ?append_cons; simpl.
  - intros _ Hsp. rewrite (isspace_not_digit _ Hsp).
    by rewrite bool_decide_eq_false_2 by (by apply isspace_not_underscore).
  - intros [Hc Hd]%andb_prop Hsp. rewrite Hc. by apply IH.
Qed.

(** A non-empty run of digits is a number. *)
Lemma int_digits_digits (b : bool) (acc : Z) (c : ascii) (d : string) :
  isdigit c = true -> digits d = true ->
  is_Some (int_digits b acc (String c d)).
Proof.
  unfold blank, spaceless, digits in *.
  revert b acc c. induction d as [|c' d IH]; intros b acc c Hc; simpl.
  - intros _. rewrite Hc. by eexists.
  - intros [Hc' Hd]%andb_prop. rewrite Hc.
    specialize (IH true (10 * acc + (Z.of_nat (nat_of_ascii c) - 48))%Z c' Hc' Hd).
    simpl in IH. by rewrite Hc' in *.
Qed.

(** The whitespace of [int] is whitespace of [str.strip]. *)
Lemma Py_ISSPACE_isspace (c : ascii) : Py_ISSPACE c = true -> isspace c = true.
Proof.
  unfold Py_ISSPACE, isspace. generalize (nat_of_ascii c). intros n.
  intros [H|H]%orb_prop; apply orb_true_iff.
  - by left.
  - right. apply Nat.eqb_eq in H. by subst.
Qed.

Lemma drop_trailing_spaces_trimmed (s : string) :
  rstrip s = s -> drop_trailing_spaces s = s.
Proof.
  induction s as [|c s IH]; simpl; [done |].
  destruct (rstrip s) as [|d u] eqn:E.
  - destruct (isspace c) eqn:Hc; [done |]. intros [= <-]. simpl.
    destruct (Py_ISSPACE c) eqn:Hp; [| done].
    apply Py_ISSPACE_isspace in Hp. congruence.
  - intros [= Hs]. rewrite IH by congruence. by rewrite <- Hs.
Qed.

Lemma rstrip_of_strip (c : ascii) (s : string) :
  isspace c = false -> strip (String c s) = String c s ->
  rstrip (String c s) = String c s.
Proof.
  unfold strip. intros Hc. simpl.
  destruct (rstrip s) as [|d u]; simpl; rewrite Hc; simpl; by rewrite ?Hc.
Qed.

Lemma int_unsigned (c : ascii) (s : string) :
  isdigit c = true -> strip (String c s) = String c s ->
  int (String c s) = int_unsigned_digits (String c s).
Proof.
  intros Hc Hs. unfold int.
  rewrite drop_trailing_spaces_trimmed
    by (by apply rstrip_of_strip; [apply isdigit_visible |]).
  destruct (isdigit_not_sign _ Hc) as [Hp Hm].
  assert (Py_ISSPACE c = false) as Hsp.
  { destruct (Py_ISSPACE c) eqn:E; [| done].
    apply Py_ISSPACE_isspace in E. apply isdigit_visible in Hc. congruence. }
  simpl skip_spaces. rewrite Hsp.
  destruct c as [[] [] [] [] [] [] [] []]; try done.
Qed.

Lemma count_digits_digits (d : string) :
  digits d = true -> count_digits d = String.length d.
Proof.
  unfold digits. induction d as [|c d IH]; simpl; [done |].
  intros [-> Hd]%andb_prop. by rewrite IH.
Qed.

(** A run of digits is a number as long as it has no more digits than
    the limit. *)
Lemma int_of_digits (c : ascii) (d : string) :
  digits (String c d) = true ->
  int (String c d)
  = if Nat.leb (String.length (String c d)) int_max_str_digits
    then int_digits false 0 (String c d)
    else None.
Proof.
  intros Hd. pose proof Hd as Hd'. unfold digits in Hd'. simpl in Hd'.
  apply andb_prop in Hd' as [Hc _].
  rewrite int_unsigned by (done || by apply strip_spaceless, digits_spaceless).
  unfold int_unsigned_digits. rewrite (count_digits_digits _ Hd).
  rewrite Nat.ltb_antisym. by destruct (Nat.leb _ _).
Qed.


End StringFacts.

Section ShlexFacts.

Lemma yield_inr token later tokens :
  yield token later = inr tokens ->
  exists rest, later = inr rest /\ tokens = token :: rest.
Proof. destruct later as [msg|rest]; simpl; [done |]. intros [= <-]. eauto. Qed.

Lemma prepend_yield token tokens later :
  prepend (token :: tokens) later = yield token (prepend tokens later).
Proof. by destruct later. Qed.

(** When [s1] tokenizes, the tokens of [s1 s2] with one space between are
    those of [s1] followed by those of [s2]. *)
Lemma lex_append state token quoted s1 s2 tokens :
  lex state token quoted s1 = inr tokens ->
  lex state token quoted (s1 +:+ String " " s2) =
    prepend tokens (lex InWhitespace "" false s2).
Proof.
  revert state token quoted tokens.
  induction s1 as [|c s1 IH]; intros state token quoted tokens.
  - rewrite append_nil_l. simpl.
    destruct state; try done; intros [= <-]; unfold emit;
      destruct quoted, (bool_decide (token = "")) eqn:E; simpl;
      try (by destruct (lex InWhitespace "" false s2));
      apply bool_decide_eq_true in E; subst;
      by destruct (lex InWhitespace "" false s2).
  - rewrite append_cons. simpl.
    destruct state as [| |q|[q|]];
      repeat match goal with
             | |- context [ if ?b then _ else _ ] => destruct b
             end;
      try (by apply IH);
      intros (rest & Hrest & ->)%yield_inr;
      rewrite prepend_yield; f_equal; by apply IH.
Qed.

Lemma shlex_split_append s1 s2 tokens :
  shlex_split s1 = inr tokens ->
  shlex_split (s1 +:+ " " +:+ s2) = prepend tokens (shlex_split s2).
Proof. apply lex_append. Qed.

(** Inside quotes, text without the closing quote never ends the token. *)
Lemma lex_unclosed q token quoted s :
  lacks q s = true ->
  lex (InQuotes q) token quoted s = inl "No closing quotation".
Proof.
  unfold lacks. revert token quoted.
  induction s as [|c s IH]; intros token quoted; simpl; [done |].
  intros [[Hq He]%andb_prop Hs]%andb_prop.
  apply negb_true_iff in Hq, He. rewrite Hq, He. simpl. by apply IH.
Qed.

Lemma quote_not_special q :
  shlex_quote q = true -> shlex_whitespace q = false /\ shlex_escape q = false.
Proof.
  unfold shlex_quote. intros [H|H]%orb_prop; apply bool_decide_eq_true in H;
    by subst.
Qed.

(** An opening quote that is never closed: the tokenizer raises. *)
Lemma lex_unterminated state token quoted u q v :
  state = InWhitespace \/ state = InWord ->
  plain u = true -> shlex_quote q = true -> lacks q v = true ->
  lex state token quoted (u +:+ String q v) = inl "No closing quotation".
Proof.
  unfold plain. intros Hst Hu Hq Hv. revert state token quoted Hst Hu.
  destruct (quote_not_special _ Hq) as [Hw He].
  induction u as [|c u IH]; intros state token quoted Hst Hu.
  - rewrite append_nil_l. simpl.
    destruct Hst as [-> | ->]; rewrite Hw, ?He, Hq; by apply lex_unclosed.
  - rewrite append_cons. simpl in *.
    apply andb_prop in Hu as [[Hcq Hce]%andb_prop Hu].
    apply negb_true_iff in Hcq, Hce.
    destruct Hst as [-> | ->]; rewrite ?Hcq, ?Hce;
      repeat match goal with
             | |- context [ if ?b then _ else _ ] => destruct b
             end;
      rewrite ?IH; auto.
Qed.

Lemma shlex_split_unterminated u q v :
  plain u = true -> shlex_quote q = true -> lacks q v = true ->
  shlex_split (u +:+ String q v) = inl "No closing quotation".
Proof. apply lex_unterminated. by left. Qed.

Lemma plain_append u v : plain u = true -> plain v = true -> plain (u +:+ v) = true.
Proof.
  unfold plain. induction u as [|c u IH]; [done |].
  rewrite append_cons. simpl. intros [-> Hu]%andb_prop Hv. by apply IH.
Qed.

Lemma append_assoc (s1 s2 s3 : string) : (s1 +:+ s2) +:+ s3 = s1 +:+ (s2 +:+ s3).
Proof. induction s1 as [|c s1 IH]; [done | by rewrite !append_cons, IH]. Qed.

(** Inside the quote [q], text that does not close it: the tokenizer
    raises at the end of the input. *)
Lemma lex_unclosed_quote q token quoted escaped s msg :
  unclosed q escaped s = Some msg ->
  lex (if escaped then InEscape (Some q) else InQuotes q) token quoted s = inl msg.
Proof.
  revert token quoted escaped.
  induction s as [|c s IH]; intros token quoted escaped; simpl.
  - destruct escaped; by intros [= <-].
  - destruct escaped; simpl.
    + intros H. by apply (IH _ _ false).
    + destruct (bool_decide (c = q)); [done |].
      destruct (shlex_escape c && shlex_escapedquote q).
      * intros H. by apply (IH _ _ true).
      * intros H. by apply (IH _ _ false).
Qed.

(** An opening quote after text that tokenizes, and never closed. *)
Lemma lex_open_quote state token quoted u q v words msg :
  lex state token quoted u = inr words ->
  shlex_quote q = true -> unclosed q false v = Some msg ->
  lex state token quoted (u +:+ String q v) = inl msg.
Proof.
  intros Hu Hq Hv. revert state token quoted words Hu.
  destruct (quote_not_special _ Hq) as [Hw He].
  induction u as [|c u IH]; intros state token quoted words.
  - rewrite append_nil_l. simpl.
    destruct state; try done; intros _; rewrite Hw, ?He, Hq;
      by apply (lex_unclosed_quote q _ _ false).
  - rewrite append_cons. simpl.
    destruct state as [| |q'|[q'|]];
      repeat match goal with
             | |- context [ if ?b then _ else _ ] => destruct b
             end;
      try (by apply IH);
      intros (rest & Hrest & ->)%yield_inr;
      by rewrite (IH _ _ _ _ Hrest).
Qed.

Lemma shlex_split_open_quote u q v words msg :
  shlex_split u = inr words ->
  shlex_quote q = true -> unclosed q false v = Some msg ->
  shlex_split (u +:+ String q v) = inl msg.
Proof. apply lex_open_quote. Qed.

End ShlexFacts.

Section TurnFacts.

(** Membership in the exit set, by computation. *)
Lemma not_exit_word (words : gset string) (s : string) :
  bool_decide (s ∈ words) = false -> s ∉ words.
Proof. apply bool_decide_eq_false_1. Qed.

(** A blank line: the turn is the prompt alone. *)
Lemma turn_blank config w logging st s :
  blank s = true ->
  turn config w logging st (Line s) = (st, [EvInput (get_prompt config st)], Continues).
Proof.
  intros H. unfold turn, read_and_dispatch.
  rewrite (strip_blank _ H). reflexivity.
Qed.

(** The first half of a turn on a line that is one word starting with a
    bang. *)
Lemma bang_word_split (n : string) :
  spaceless n = true -> split (String "!" n) = [String "!" n].
Proof. intros H. by apply split_one_word. Qed.

Lemma bang_word_long (n : string) :
  n <> "" -> Nat.ltb 1 (String.length (String "!" n)) = true.
Proof. destruct n; [done | reflexivity]. Qed.

Lemma dispatch_bang config logging st s n :
  strip s = String "!" n -> n <> "" -> spaceless n = true ->
  String "!" n ∉ exit_commands config ->
  read_and_dispatch config logging st (Line s) =
    match int n with
    | None =>
        (prelude config logging st (String "!" n)
           ++ [EvPrint (to config Stderr) (InvalidHistoryReference (String "!" n))],
         inr (Done Continue))
    | Some index =>
        if in_history st index then
          match session_history st !! Z.to_nat index with
          | Some entry =>
              (prelude config logging st (String "!" n)
                 ++ [EvPrint (to config Stdout) (ReRunning entry)],
               inr (Execute entry))
          | None =>
              (prelude config logging st (String "!" n),
               inl (Exc IndexError "list index out of range"))
          end
        else
          (prelude config logging st (String "!" n)
             ++ [EvPrint (to config Stderr) (HistoryIndexOutOfRange index)],
           inr (Done Continue))
    end.
Proof.
  intros Hs Hn Hsp Hex. unfold read_and_dispatch, _handle_builtin_command.
  rewrite Hs, (bang_word_split _ Hsp). simpl hd.
  rewrite (bool_decide_eq_false_2 (String "!" n = "")) by done.
  rewrite (bool_decide_eq_false_2 _ Hex).
  rewrite !(bool_decide_eq_false_2 (String "!" n = _)) by (by destruct n).
  rewrite (bang_word_long _ Hn). simpl startswith_bang. simpl drop1.
  unfold prelude, to, say.
  destruct (int n) as [index|]; [destruct (in_history st index);
    [destruct (session_history st !! Z.to_nat index)|]|];
    by destruct logging.
Qed.

Lemma in_history_lookup st index :
  in_history st index = true -> is_Some (session_history st !! Z.to_nat index).
Proof.
  unfold in_history. intros [H1 H2]%andb_prop.
  apply Z.leb_le in H1. apply Z.ltb_lt in H2.
  apply lookup_lt_is_Some. lia.
Qed.

(** The first half of a turn on a line made of a bang, digits, whitespace
    and more text: the line goes to execution as it is, unless the digits
    are more than [int] accepts. *)
Lemma dispatch_bang_text config logging st s d sp t :
  strip s = String "!" (d +:+ String sp t) ->
  d <> "" -> digits d = true -> isspace sp = true ->
  String "!" d ∉ exit_commands config ->
  read_and_dispatch config logging st (Line s) =
    if Nat.leb (String.length d) int_max_str_digits then
      (prelude config logging st (String "!" (d +:+ String sp t)),
       inr (Execute (String "!" (d +:+ String sp t))))
    else
      (prelude config logging st (String "!" (d +:+ String sp t))
         ++ [EvPrint (to config Stderr) (InvalidHistoryReference (String "!" d))],
       inr (Done Continue)).
Proof.
  intros Hs Hd Hdig Hsp Hex.
  destruct d as [|c d]; [done |]. clear Hd.
  pose proof Hdig as Hdig'. unfold digits in Hdig'. simpl in Hdig'.
  apply andb_prop in Hdig' as [Hc Hdd].
  pose proof (isdigit_visible _ Hc) as Hcv.
  assert (split (String "!" (String c d +:+ String sp t))
          = String "!" (String c d) :: split_from None t) as Hsplit.
  { rewrite split_visible by done.
    by rewrite split_from_word_space by (done || by apply digits_spaceless). }
  pose proof (int_of_digits c d Hdig) as Hint.
  assert (int (String c d +:+ String sp t) = None) as Hnone.
  { rewrite append_cons. rewrite int_unsigned; [| done |].
    - unfold int_unsigned_digits. destruct (Nat.ltb _ _); [done |].
      by apply (int_digits_space _ _ (String c d)).
    - pose proof (rstrip_strip s) as Hr. rewrite Hs, append_cons in Hr.
      apply rstrip_tail in Hr; [| done].
      unfold strip. rewrite Hr. by apply lstrip_visible. }
  unfold read_and_dispatch, _handle_builtin_command.
  rewrite Hs, Hsplit. simpl hd.
  rewrite (bool_decide_eq_false_2 (String "!" _ = "")) by done.
  rewrite (bool_decide_eq_false_2 _ Hex).
  rewrite !(bool_decide_eq_false_2 (String "!" (String c d) = _)) by done.
  simpl startswith_bang. simpl drop1. rewrite Hint.
  destruct (Nat.leb _ _).
  - destruct (int_digits_digits false 0 c d Hc Hdd) as [k ->].
    rewrite Hnone. rewrite append_cons.
    unfold prelude. by destruct logging, (in_history st k).
  - rewrite append_cons. unfold prelude, to, say. by destruct logging.
Qed.

End TurnFacts.

Section IoFacts.

Lemma bind_unfold {A B} (m : io A) (k : A -> io B) :
  m ≫= k =
    match m.2 with
    | inl e => (m.1, inl e)
    | inr a => (m.1 ++ (k a).1, (k a).2)
    end.
Proof. destruct m as [evs [e|a]]; simpl; [done |]. by destruct (k a). Qed.

Lemma try_except_unfold {A} (body : io A) handler :
  try_except body handler =
    match body.2 with
    | inl e =>
        match handler e with
        | Some h => (body.1 ++ h.1, h.2)
        | None => (body.1, inl e)
        end
    | inr a => (body.1, inr a)
    end.
Proof.
  destruct body as [evs [e|a]]; simpl; [|done].
  destruct (handler e) as [[evs' r]|]; done.
Qed.

(** ** Computations that return *)

Lemma returns_ret {A} (a : A) : returns (mret a : io A).
Proof. by exists a. Qed.

Lemma returns_emit ev : returns (emit_event ev).
Proof. by exists (). Qed.

Lemma returns_say config plain m : returns (say config plain m).
Proof. by exists (). Qed.

Lemma returns_bind {A B} (m : io A) (k : A -> io B) :
  returns m -> (forall a, returns (k a)) -> returns (m ≫= k).
Proof.
  intros [a Ha] Hk. rewrite bind_unfold, Ha. destruct (Hk a) as [b Hb].
  by exists b.
Qed.

Lemma returns_for_each {A} (f : nat -> A -> io unit) i l :
  (forall i x, x ∈ l -> returns (f i x)) -> returns (for_each f i l).
Proof.
  revert i. induction l as [|x l IH]; intros i H; simpl.
  - apply returns_ret.
  - apply returns_bind; [apply H; by left |].
    intros _. apply IH. intros j y Hy. apply H. by right.
Qed.

(** A [try] whose [except] clauses catch every [Exception] and return
    always returns when its body raises nothing else. *)
Lemma returns_try {A} (body : io A) handler :
  only_errors body ->
  (forall e, isinstance e Exception = true ->
             exists h, handler e = Some h /\ returns h) ->
  returns (try_except body handler).
Proof.
  intros Hb Hh. rewrite try_except_unfold.
  destruct (body.2) as [e|a] eqn:E; [|by exists a].
  destruct (Hh e (Hb e E)) as (h & -> & [a Ha]). by exists a.
Qed.

(** ** Computations that raise errors only *)

Lemma returns_only_errors {A} (m : io A) : returns m -> only_errors m.
Proof. intros [a Ha] e He. congruence. Qed.

Lemma only_errors_ret {A} (a : A) : only_errors (mret a : io A).
Proof. by intros e. Qed.

Lemma only_errors_raise {A} e :
  isinstance e Exception = true -> only_errors (raise e : io A).
Proof. intros H e' [= <-]. done. Qed.

Lemma only_errors_bind {A B} (m : io A) (k : A -> io B) :
  only_errors m -> (forall a, m.2 = inr a -> only_errors (k a)) ->
  only_errors (m ≫= k).
Proof.
  intros Hm Hk e. rewrite bind_unfold.
  destruct (m.2) as [e'|a] eqn:E; simpl.
  - intros [= <-]. by apply Hm.
  - by apply Hk.
Qed.

Lemma only_errors_try {A} (body : io A) handler :
  only_errors body ->
  (forall e h, handler e = Some h -> only_errors h) ->
  only_errors (try_except body handler).
Proof.
  intros Hb Hh e. rewrite try_except_unfold.
  destruct (body.2) as [e'|a] eqn:E; simpl; [|done].
  destruct (handler e') as [h|] eqn:Eh; simpl.
  - by apply (Hh e').
  - intros [= <-]. by apply Hb.
Qed.

Lemma only_errors_when b m : only_errors m -> only_errors (when b m).
Proof. destruct b; [done |]. intros _. apply only_errors_ret. Qed.

Lemma only_errors_returned r :
  (forall e, r = Some e -> isinstance e Exception = true) ->
  only_errors (returned r).
Proof.
  destruct r as [e|]; simpl; intros H.
  - apply only_errors_raise. by apply H.
  - apply only_errors_ret.
Qed.

End IoFacts.

Section DriverFacts.

Lemma except_Exception_catches report e :
  isinstance e Exception = true ->
  except_Exception report e = Some (report e).
Proof. unfold except_Exception. by intros ->. Qed.

Lemma pre_hooks_return config a :
  hooks_raise_errors config -> returns (run_pre_command_hooks config a).
Proof.
  intros [Hpre _]. apply returns_for_each. intros i hook Hin.
  apply returns_try.
  - apply only_errors_bind; [apply returns_only_errors, returns_emit |].
    intros _ _. apply only_errors_returned. intros e. by apply Hpre.
  - intros e He. rewrite except_Exception_catches by done.
    eexists; split; [done | apply returns_say].
Qed.

Lemma post_hooks_return config a rc out err :
  hooks_raise_errors config ->
  returns (run_post_command_hooks config a rc out err).
Proof.
  intros [_ Hpost]. apply returns_for_each. intros i hook Hin.
  apply returns_try.
  - apply only_errors_bind; [apply returns_only_errors, returns_emit |].
    intros _ _. apply only_errors_returned. intros e. by apply Hpost.
  - intros e He. rewrite except_Exception_catches by done.
    eexists; split; [done | apply returns_say].
Qed.

Lemma only_errors_callback w cb x :
  callback_raises_errors cb -> only_errors (call_callback w cb x).
Proof.
  destruct cb as [|f]; simpl; intros H.
  - destruct (decode w x); [apply returns_only_errors, returns_emit |].
    by apply only_errors_raise.
  - apply only_errors_returned. apply H.
Qed.

Lemma only_errors_log_output w x : only_errors (log_output w x).
Proof.
  unfold log_output. destruct (decode w x).
  - apply returns_only_errors, returns_emit.
  - by apply only_errors_raise.
Qed.

Lemma only_errors_tokenize s : only_errors (tokenize s).
Proof.
  unfold tokenize. destruct (shlex_split s).
  - by apply only_errors_raise.
  - apply only_errors_ret.
Qed.

Lemma only_errors_wait config p :
  (forall e, proc_wait_error p = Some e -> isinstance e Exception = true) ->
  only_errors (wait config p).
Proof.
  intros H. apply only_errors_try.
  - apply only_errors_bind; [apply returns_only_errors, returns_emit |].
    intros _ _. unfold communicate.
    destruct (proc_wait_error p) as [e|]; [by apply only_errors_raise, H |].
    destruct (timeout config) as [t|]; [destruct (Nat.ltb t (proc_runtime p))|];
      try apply only_errors_ret.
    by apply only_errors_raise.
  - intros e h. destruct (isinstance e TimeoutError); [|done].
    intros [= <-]. apply returns_only_errors. by eexists.
Qed.

Lemma spawn_result w argv p :
  (spawn w argv).2 = inr p -> Popen w argv = inr p.
Proof.
  unfold spawn. rewrite bind_unfold. simpl.
  destruct (Popen w argv) as [e|p']; simpl; congruence.
Qed.

Lemma only_errors_spawn w argv :
  (forall e, Popen w argv = inl e -> isinstance e Exception = true) ->
  only_errors (spawn w argv).
Proof.
  intros H. unfold spawn.
  apply only_errors_bind; [apply returns_only_errors, returns_emit |].
  intros _ _. destruct (Popen w argv) as [e|p].
  - apply only_errors_raise. by apply H.
  - apply only_errors_ret.
Qed.

Lemma only_errors_route w cb x logging ev :
  callback_raises_errors cb ->
  only_errors
    (when (negb (bool_decide (x = [])))
       (emit_event ev;; call_callback w cb x;; when logging (log_output w x))).
Proof.
  intros H. apply only_errors_when.
  apply only_errors_bind; [apply returns_only_errors, returns_emit |].
  intros _ _. apply only_errors_bind; [by apply only_errors_callback |].
  intros _ _. apply only_errors_when, only_errors_log_output.
Qed.

Lemma only_errors_attend config w logging a p :
  hooks_raise_errors config ->
  callback_raises_errors (stdout_callback config) ->
  callback_raises_errors (stderr_callback config) ->
  (forall e, proc_wait_error p = Some e -> isinstance e Exception = true) ->
  only_errors (attend config w logging a p).
Proof.
  intros Hhooks Hout Herr Hwait. unfold attend.
  apply only_errors_bind; [by apply only_errors_wait |].
  intros [[stdout stderr] returncode] _.
  apply only_errors_bind; [by apply only_errors_route |]. intros _ _.
  apply only_errors_bind; [by apply only_errors_route |]. intros _ _.
  apply only_errors_bind;
    [apply only_errors_when, returns_only_errors, returns_say |]. intros _ _.
  by apply returns_only_errors, post_hooks_return.
Qed.

(** The executor returns whatever error the command meets. *)
Lemma execute_returns config w logging a :
  raises_errors_only config w -> returns (execute_command config w logging a).
Proof.
  intros (Hhooks & Hout & Herr & Hspawn & Hwait). apply returns_try.
  - apply only_errors_bind; [apply only_errors_tokenize |]. intros argv _.
    apply only_errors_bind; [apply only_errors_spawn, Hspawn |].
    intros p Hp%spawn_result. apply only_errors_attend; try done.
    intros e. by apply (Hwait argv).
  - intros e He. destruct (isinstance e FileNotFoundError).
    + eexists; split; [done | apply returns_say].
    + rewrite except_Exception_catches by done.
      eexists; split; [done | apply returns_say].
Qed.

(** A turn whose line goes to execution. *)
Lemma turn_execute config w logging st r evs a :
  read_and_dispatch config logging st r = (evs, inr (Execute a)) ->
  turn config w logging st r =
    let run := run_pre_command_hooks config a;;
               execute_command config w logging a in
    match run.2 with
    | inl e => (record a st, evs ++ run.1, at_loop_level config e)
    | inr _ => (count (record a st), evs ++ run.1, Continues)
    end.
Proof.
  intros H. unfold turn. rewrite H. simpl.
  by destruct (run_pre_command_hooks config a;; execute_command config w logging a)
    as [evs' [e|[]]].
Qed.

Lemma turn_execute_events config w logging st r evs a :
  read_and_dispatch config logging st r = (evs, inr (Execute a)) ->
  (turn config w logging st r).1.2 =
    evs ++ (run_pre_command_hooks config a;;
            execute_command config w logging a).1.
Proof.
  intros H. rewrite (turn_execute _ _ _ _ _ _ _ H). cbv zeta.
  by destruct ((run_pre_command_hooks config a;;
                execute_command config w logging a).2).
Qed.

Lemma turn_execute_history config w logging st r evs a :
  read_and_dispatch config logging st r = (evs, inr (Execute a)) ->
  session_history (turn config w logging st r).1.1 = session_history st ++ [a].
Proof.
  intros H. rewrite (turn_execute _ _ _ _ _ _ _ H). cbv zeta.
  by destruct ((run_pre_command_hooks config a;;
                execute_command config w logging a).2).
Qed.

Lemma run_returns config w logging a :
  raises_errors_only config w ->
  returns (run_pre_command_hooks config a;; execute_command config w logging a).
Proof.
  intros H. apply returns_bind.
  - apply pre_hooks_return, H.
  - intros _. by apply execute_returns.
Qed.

(** What the executor does with a line that does not tokenize. *)
Lemma execute_untokenizable config w logging a msg :
  shlex_split (full_command config a) = inl msg ->
  execute_command config w logging a =
    ([EvPrint (to config Stderr) (ErrorExecutingCommand (Exc ValueError msg))],
     inr ()).
Proof.
  intros H. unfold execute_command, tokenize. rewrite H. reflexivity.
Qed.

(** A turn on a line that is not executed. *)
Lemma turn_done config w logging st r evs f :
  read_and_dispatch config logging st r = (evs, inr (Done f)) ->
  turn config w logging st r =
    (st, evs, match f with Continue => Continues | Break => Breaks end).
Proof. intros H. unfold turn. rewrite H. by destruct f. Qed.

End DriverFacts.

Section DispatchFacts.


(** The verdict on a non-empty line that does not start with an exit
    word is that of the built-in commands, then of the history
    reference. *)
Lemma dispatch_verdict config logging st s :
  (read_and_dispatch config logging st (Line s)).2 =
    if bool_decide (strip s = "") then inr (Done Continue)
    else if bool_decide (first_word s ∈ exit_commands config) then inr (Done Break)
    else
      match (_handle_builtin_command config st (strip s)).2 with
      | inl e => inl e
      | inr true => inr (Done Continue)
      | inr false =>
          if startswith_bang (strip s) && Nat.ltb 1 (String.length (strip s)) then
            match int (drop1 (strip s)) with
            | Some index =>
                if in_history st index then
                  match session_history st !! Z.to_nat index with
                  | Some entry => inr (Execute entry)
                  | None => inl (Exc IndexError "list index out of range")
                  end
                else inr (Done Continue)
            | None => inr (Execute (strip s))
            end
          else inr (Execute (strip s))
      end.
Proof.
  unfold read_and_dispatch, first_word.
  destruct (bool_decide (strip s = "")); [done |].
  destruct (bool_decide (hd "" (split (strip s)) ∈ exit_commands config));
    [by destruct logging |].
  destruct (_handle_builtin_command config st (strip s)) as [evb [e|[|]]];
    [by destruct logging.. |].
  destruct (startswith_bang (strip s) && Nat.ltb 1 (String.length (strip s)));
    [| by destruct logging].
  destruct (int (drop1 (strip s))) as [index|]; [| by destruct logging].
  destruct (in_history st index); [| by destruct logging].
  by destruct (session_history st !! Z.to_nat index), logging.
Qed.

Lemma print_history_returns config st : returns (_print_history config st).
Proof.
  unfold _print_history. destruct (session_history st); [apply returns_say |].
  apply returns_bind; [apply returns_say |]. intros _.
  apply returns_for_each. intros. apply returns_say.
Qed.

(** The first word decides the built-in commands. *)
Lemma builtin_handled config st a cmd :
  hd "" (split a) = cmd ->
  cmd ∈ ["help"; "?"; "history"; "clear"] ->
  (_handle_builtin_command config st a).2 = inr true.
Proof.
  unfold _handle_builtin_command. intros Hhd Hcmd.
  pose proof (print_history_returns config st) as [[] Hh].
  destruct (_print_history config st) as [evs r]. simpl in Hh. subst r.
  destruct (split a) as [|cmd' rest]; simpl in Hhd; subst.
  - apply list_elem_of_In in Hcmd. simpl in Hcmd. by intuition.
  - apply elem_of_cons in Hcmd as [-> | Hcmd]; [done |].
    apply elem_of_cons in Hcmd as [-> | Hcmd]; [done |].
    apply elem_of_cons in Hcmd as [-> | Hcmd]; [done |].
    apply list_elem_of_singleton in Hcmd as ->. done.
Qed.

(** A first word [!n] whose [n] is not a number is an invalid reference. *)
Lemma invalid_reference_handled config st a n :
  hd "" (split a) = String "!" n -> n <> "" -> int n = None ->
  (_handle_builtin_command config st a).2 = inr true.
Proof.
  unfold _handle_builtin_command. intros Hhd Hn Hint.
  destruct (split a) as [|cmd' rest]; simpl in Hhd; subst; [done |].
  rewrite !(bool_decide_eq_false_2 (String "!" n = _)) by done.
  rewrite (bang_word_long _ Hn). simpl. by rewrite Hint.
Qed.

End DispatchFacts.

Section EventFacts.
Context (P : event -> bool).

Lemma only_events_ret {A} (a : A) : only_events P (mret a : io A).
Proof. reflexivity. Qed.

Lemma only_events_raise {A} e : only_events P (raise e : io A).
Proof. reflexivity. Qed.

Lemma only_events_emit ev : P ev = true -> only_events P (emit_event ev).
Proof. unfold only_events. simpl. by intros ->. Qed.

Lemma only_events_say config plain m :
  (forall to, P (EvPrint to m) = true) -> only_events P (say config plain m).
Proof. intros H. by apply only_events_emit. Qed.

Lemma only_events_bind {A B} (m : io A) (k : A -> io B) :
  only_events P m -> (forall a, only_events P (k a)) -> only_events P (m ≫= k).
Proof.
  unfold only_events. intros Hm Hk. rewrite bind_unfold.
  destruct (m.2) as [e|a]; simpl; [done |].
  rewrite forallb_app, Hm. apply Hk.
Qed.

Lemma only_events_try {A} (body : io A) handler :
  only_events P body ->
  (forall e h, handler e = Some h -> only_events P h) ->
  only_events P (try_except body handler).
Proof.
  unfold only_events. intros Hb Hh. rewrite try_except_unfold.
  destruct (body.2) as [e|a]; simpl; [|done].
  destruct (handler e) as [h|] eqn:E; simpl; [|done].
  rewrite forallb_app, Hb. by apply (Hh e).
Qed.

Lemma only_events_when b m : only_events P m -> only_events P (when b m).
Proof. by destruct b. Qed.

Lemma only_events_returned r : only_events P (returned r).
Proof. by destruct r. Qed.

Lemma only_events_for_each {A} (f : nat -> A -> io unit) i l :
  (forall i x, only_events P (f i x)) -> only_events P (for_each f i l).
Proof.
  intros H. revert i. induction l as [|x l IH]; intros i; simpl; [done |].
  apply only_events_bind; [apply H | intros _; apply IH].
Qed.

Lemma only_events_except report e h :
  (forall e, only_events P (report e)) ->
  except_Exception report e = Some h -> only_events P h.
Proof.
  unfold except_Exception. intros H.
  destruct (isinstance e Exception); [|done]. intros [= <-]. apply H.
Qed.

End EventFacts.

(** Proves [only_events P m] for a concrete [P] by following [m]. *)
Ltac follow_events :=
  repeat first
    [ apply only_events_ret
    | apply only_events_raise
    | apply only_events_returned
    | apply only_events_say; intros; reflexivity
    | apply only_events_emit; reflexivity
    | apply only_events_when
    | apply only_events_bind; [| intros ]
    | apply only_events_for_each; intros
    | apply only_events_try; [| intros ]
    | progress simplify_eq
    | match goal with
      | H : except_Exception _ _ = Some _ |- _ =>
          eapply only_events_except; [| exact H ]; intros
      | H : context [ if ?b then _ else _ ] |- _ => destruct b eqn:?
      | |- context [ match ?x with _ => _ end ] => destruct x eqn:?
      end ].

Section PhaseEvents.

Lemma dispatch_no_spawn config logging st r :
  only_events (fun ev => negb (is_spawn ev)) (read_and_dispatch config logging st r).
Proof.
  unfold read_and_dispatch, _handle_builtin_command, _print_help, _print_history.
  follow_events.
Qed.

Lemma pre_hooks_no_spawn config a :
  only_events (fun ev => negb (is_spawn ev)) (run_pre_command_hooks config a).
Proof. unfold run_pre_command_hooks. follow_events. Qed.

Lemma attend_no_spawn config w logging a p :
  only_events (fun ev => negb (is_spawn ev)) (attend config w logging a p).
Proof.
  unfold attend, wait, run_post_command_hooks, call_callback, log_output.
  follow_events.
Qed.

Lemma spawned_app evs evs' : spawned (evs ++ evs') = spawned evs ++ spawned evs'.
Proof.
  induction evs as [|ev evs IH]; [done |].
  destruct ev; simpl; by rewrite ?IH.
Qed.

Lemma spawned_none {A} (m : io A) :
  only_events (fun ev => negb (is_spawn ev)) m -> spawned m.1 = [].
Proof.
  unfold only_events. induction (m.1) as [|ev evs IH]; [done |].
  simpl. intros [Hev Hevs]%andb_prop. destruct ev; try done; by apply IH.
Qed.

(** The executor spawns one process, with the tokens of the full command
    line, or none when the line does not tokenize. *)
Lemma execute_spawned config w logging a :
  spawned (execute_command config w logging a).1 =
    match shlex_split (full_command config a) with
    | inr argv => [argv]
    | inl _ => []
    end.
Proof.
  unfold execute_command, tokenize, spawn.
  destruct (shlex_split (full_command config a)) as [msg|argv].
  - rewrite try_except_unfold. simpl. unfold except_Exception. simpl.
    reflexivity.
  - rewrite try_except_unfold, !bind_unfold. simpl.
    destruct (Popen w argv) as [e|p]; simpl.
    + unfold except_Exception.
      destruct (isinstance e FileNotFoundError), (isinstance e Exception); done.
    + pose proof (spawned_none _ (attend_no_spawn config w logging a p)) as Hq.
      destruct (attend config w logging a p) as [evs [e|[]]]; simpl in *.
      * unfold except_Exception.
        destruct (isinstance e FileNotFoundError), (isinstance e Exception);
          simpl; rewrite ?spawned_app, Hq; done.
      * by rewrite Hq.
Qed.

Lemma run_spawned config w logging a :
  spawned (run_pre_command_hooks config a;; execute_command config w logging a).1 =
    match (run_pre_command_hooks config a).2 with
    | inr _ => spawned (execute_command config w logging a).1
    | inl _ => []
    end.
Proof.
  rewrite bind_unfold.
  pose proof (spawned_none _ (pre_hooks_no_spawn config a)) as Hq.
  destruct ((run_pre_command_hooks config a).2) as [e|[]]; simpl; [done |].
  by rewrite spawned_app, Hq.
Qed.

(** Whatever a turn spawns is the tokenized full command line of the
    argument string it executes. *)
Lemma turn_spawned config w logging st r argv :
  argv ∈ spawned (turn config w logging st r).1.2 ->
  exists evs a,
    read_and_dispatch config logging st r = (evs, inr (Execute a))
    /\ shlex_split (full_command config a) = inr argv.
Proof.
  pose proof (spawned_none _ (dispatch_no_spawn config logging st r)) as Hq.
  destruct (read_and_dispatch config logging st r) as [evs [e|[f|a]]] eqn:E;
    simpl in Hq.
  - unfold turn. rewrite E. simpl. rewrite Hq. by intros ?%elem_of_nil.
  - rewrite (turn_done _ _ _ _ _ _ _ E). simpl. rewrite Hq.
    by intros ?%elem_of_nil.
  - rewrite (turn_execute _ _ _ _ _ _ _ E). intros H. exists evs, a.
    split; [done |].
    assert (argv ∈ spawned
              (run_pre_command_hooks config a;;
               execute_command config w logging a).1) as H'.
    { revert H. simpl.
      destruct ((run_pre_command_hooks config a;;
                 execute_command config w logging a).2);
        simpl; by rewrite spawned_app, Hq. }
    revert H'. rewrite run_spawned.
    destruct ((run_pre_command_hooks config a).2); [by intros ?%elem_of_nil |].
    rewrite execute_spawned.
    destruct (shlex_split (full_command config a)) as [msg|argv'].
    + by intros ?%elem_of_nil.
    + by intros ->%list_elem_of_singleton.
Qed.

End PhaseEvents.

(* ================================================================== *)
(** * Properties of the driver *)
(* ================================================================== *)

Section Lines.

(** C9. A line that is empty or made of whitespace only spawns no
    subprocess, adds nothing to the session history, leaves the command
    counter as it is, and the loop goes on to the next prompt: the turn
    changes no state and its only event is the prompt. *)
Theorem blank_line_is_skipped config w logging st s inputs :
  blank s = true ->
  turn config w logging st (Line s)
    = (st, [EvInput (get_prompt config st)], Continues)
  /\ spawned (turn config w logging st (Line s)).1.2 = []
  /\ _run_repl_loop config w logging st (Line s :: inputs)
     = (let '(st', evs, e) := _run_repl_loop config w logging st inputs in
        (st', EvInput (get_prompt config st) :: evs, e)).
Proof.
  intros H. pose proof (turn_blank config w logging st s H) as Ht.
  split; [done |]. split; [by rewrite Ht |].
  simpl. rewrite Ht.
  by destruct (_run_repl_loop config w logging st inputs) as [[st' evs] e].
Qed.

Lemma blank_line_is_skipped_witness :
  turn (default_config "ls") quiet_world false (St 3 ["-l"]) (Line "   ")
  = (St 3 ["-l"], [EvInput (Prompt "{command} >>> " "ls" 3)], Continues).
Proof.
  refine (proj1 (blank_line_is_skipped _ _ _ _ "   " [] _)). reflexivity.
Defined.



(** C4 for every number inside the range does not hold: a reference
    written with 4301 zeros denotes position 0, where the history has an
    entry, and is refused by [int]; it is answered as an invalid reference
    and not resolved. *)
Lemma long_reference_is_not_resolved :
  ~ resolves_every_position (default_config "ls").
Proof.
  intros H.
  specialize (H false (St 1 ["-l"]) (repeated "0" 4301) "-l").
  assert (int (repeated "0" 4301) = None) as Hint by (by vm_compute).
  assert (strip (String "!" (repeated "0" 4301)) = String "!" (repeated "0" 4301))
    as Hs by (by vm_compute).
  assert (String "!" (repeated "0" 4301) ∉ exit_commands (default_config "ls"))
    as Hex by (apply not_exit_word; by vm_compute).
  rewrite (dispatch_bang _ _ _ _ _ Hs) in H; [| done | by vm_compute | done].
  rewrite Hint in H. simpl in H.
  by specialize (H ltac:(done) ltac:(by vm_compute) Hex ltac:(by vm_compute)).
Qed.



(** C10 for every run of digits does not hold: with 4301 digits before
    the text, the first word is refused by [int] in the built-in handler;
    the line is answered as an invalid reference and is neither recorded
    nor executed. *)
Lemma long_bang_text_is_dropped :
  ~ records_every_bang_text (default_config "ls") quiet_world.
Proof.
  intros H.
  specialize (H false initial (repeated "1" 4301) " "%char "-a").
  assert (strip (String "!" (repeated "1" 4301 +:+ " -a"))
          = String "!" (repeated "1" 4301 +:+ " -a")) as Hs by (by vm_compute).
  assert (String "!" (repeated "1" 4301) ∉ exit_commands (default_config "ls"))
    as Hex by (apply not_exit_word; by vm_compute).
  assert (repeated "1" 4301 <> "") as Hd by done.
  assert (digits (repeated "1" 4301) = true) as Hdig by (by vm_compute).
  specialize (H Hd Hdig eq_refl Hs Hex).
  pose proof (dispatch_bang_text (default_config "ls") false initial _ _ _ _
                Hs Hd Hdig eq_refl Hex) as Hdisp.
  replace (Nat.leb (String.length (repeated "1" 4301)) int_max_str_digits)
    with false in Hdisp by (by vm_compute).
  rewrite (turn_done _ quiet_world _ _ _ _ _ Hdisp) in H.
  simpl in H. by destruct (String "!" (repeated "1" 4301 +:+ " -a")).
Qed.

(** C8. Whatever process a turn spawns, its argument vector is the tokens
    of the base command followed by the tokens of the argument string the
    turn executes (the one it has just appended to the session history);
    with base command [echo], the line [arg1] spawns [echo arg1]. *)
Theorem argv_is_base_then_arguments :
  (forall config w logging st r base argv,
     shlex_split (command config) = inr base ->
     argv ∈ spawned (turn config w logging st r).1.2 ->
     exists a user,
       last (session_history (turn config w logging st r).1.1) = Some a
       /\ shlex_split a = inr user
       /\ argv = base ++ user)
  /\ (forall w logging,
        spawned (turn (default_config "echo") w logging initial (Line "arg1")).1.2
        = [["echo"; "arg1"]]).
Proof.
  split.
  - intros config w logging st r base argv Hbase Hin.
    destruct (turn_spawned _ _ _ _ _ _ Hin) as (evs & a & Hdisp & Hargv).
    unfold full_command in Hargv.
    rewrite (shlex_split_append _ _ _ Hbase) in Hargv.
    destruct (shlex_split a) as [msg|user] eqn:Ha; [done |].
    injection Hargv as <-. exists a, user.
    split; [| done].
    rewrite (turn_execute_history _ w _ _ _ _ _ Hdisp). apply last_snoc.
  - intros w logging.
    assert (read_and_dispatch (default_config "echo") logging initial (Line "arg1")
            = (prelude (default_config "echo") logging initial "arg1",
               inr (Execute "arg1"))) as Hdisp by (by destruct logging).
    rewrite (turn_execute_events _ w _ _ _ _ _ Hdisp), spawned_app.
    rewrite run_spawned, execute_spawned. by destruct logging.
Qed.

Lemma argv_is_base_then_arguments_witness :
  exists a user,
    last (session_history
            (turn (default_config "ls") quiet_world false initial (Line "-l -a")).1.1)
      = Some a
    /\ shlex_split a = inr user
    /\ ["ls"; "-l"; "-a"] = ["ls"] ++ user.
Proof.
  refine (proj1 argv_is_base_then_arguments (default_config "ls") quiet_world
            false initial (Line "-l -a") ["ls"] ["ls"; "-l"; "-a"] eq_refl _).
  vm_compute. by left.
Defined.

(** C5. The command counter grows by exactly one at every turn whose line
    reaches the executor, whatever the command meets there (a command that
    is not found, a failed spawn or wait, a timeout, a failing handler or
    hook: any error deriving from [Exception]), and the loop continues.  A
    blank line, an exit word, a built-in command and an invalid history
    reference leave the counter as it is and spawn nothing. *)
Theorem counter_counts_executions config w logging st :
  (forall r evs a,
     read_and_dispatch config logging st r = (evs, inr (Execute a)) ->
     raises_errors_only config w ->
     (turn config w logging st r).2 = Continues
     /\ command_counter (turn config w logging st r).1.1 = command_counter st + 1)
  /\ (forall s,
        not_a_command config st s ->
        command_counter (turn config w logging st (Line s)).1.1 = command_counter st
        /\ spawned (turn config w logging st (Line s)).1.2 = []).
Proof.
  split.
  - intros r evs a Hdisp Hw.
    rewrite (turn_execute _ w _ _ _ _ _ Hdisp). cbv zeta.
    destruct (run_returns config w logging a Hw) as [[] ->]. done.
  - intros s Hs.
    assert (exists evs f,
              read_and_dispatch config logging st (Line s) = (evs, inr (Done f)))
      as (evs & f & Hdisp).
    { pose proof (dispatch_verdict config logging st s) as Hv.
      destruct (read_and_dispatch config logging st (Line s)) as [evs v] eqn:E.
      simpl in Hv. exists evs.
      destruct (bool_decide (strip s = "")) eqn:Hblank; [by eexists; rewrite Hv |].
      apply bool_decide_eq_false in Hblank.
      destruct (bool_decide (first_word s ∈ exit_commands config)) eqn:Hexit;
        [by eexists; rewrite Hv |].
      apply bool_decide_eq_false in Hexit.
      destruct Hs as [Hs | Hs | Hs | n Hfirst Hn Hint | n index Hstrip Hsp Hint Hin].
      - by rewrite strip_blank in Hblank.
      - done.
      - rewrite (builtin_handled config st (strip s) (first_word s)) in Hv by done.
        by eexists; rewrite Hv.
      - rewrite (invalid_reference_handled config st (strip s) n) in Hv by done.
        by eexists; rewrite Hv.
      - pose proof (dispatch_bang config logging st s n Hstrip) as Hd.
        assert (n <> "") as Hn by (by intros ->).
        unfold first_word in Hexit.
        rewrite Hstrip, (bang_word_split _ Hsp) in Hexit.
        specialize (Hd Hn Hsp Hexit). rewrite Hint, Hin in Hd.
        rewrite Hd in E. injection E as _ <-. by eexists. }
    rewrite (turn_done _ w _ _ _ _ _ Hdisp). split; [done |].
    pose proof (spawned_none _ (dispatch_no_spawn config logging st (Line s))) as Hq.
    by rewrite Hdisp in Hq.
Qed.

Lemma counter_counts_executions_witness :
  command_counter
    (turn (default_config "ls") quiet_world false (St 4 []) (Line "-l")).1.1 = 5
  /\ command_counter
       (turn (default_config "ls") quiet_world false (St 4 []) (Line "help")).1.1 = 4.
Proof.
  split.
  - refine (proj2 (proj1 (counter_counts_executions (default_config "ls")
                            quiet_world false (St 4 []))
                     (Line "-l") _ "-l" eq_refl _)).
    repeat split; try done.
    + intros hook ? ? ? Hin. by apply elem_of_nil in Hin.
    + intros hook ? ? ? ? ? ? Hin. by apply elem_of_nil in Hin.
    + simpl. by intros ? ? ? [= <-].
  - refine (proj1 (proj2 (counter_counts_executions (default_config "ls")
                            quiet_world false (St 4 []))
                     "help" _)).
    apply is_builtin. vm_compute. by left.
Defined.

(** C7. A line with an opening quote that is never closed does not
    tokenize: whatever precedes the quote (closed quotes and escaped
    characters included) and whatever follows it without closing it,
    [shlex_split] raises a [ValueError] (there is no separate error class),
    the loop catches it, prints it as an error of that line, spawns nothing
    and continues with the next prompt.  The line is the one to execute,
    and the base command tokenizes on its own. *)
Theorem unterminated_quote_is_reported config w logging st r evs u q v base words msg :
  let a := u +:+ String q v in
  read_and_dispatch config logging st r = (evs, inr (Execute a)) ->
  returns (run_pre_command_hooks config a) ->
  shlex_split (command config) = inr base ->
  shlex_split u = inr words -> shlex_quote q = true ->
  unclosed q false v = Some msg ->
  shlex_split a = inl msg
  /\ shlex_split (full_command config a) = inl msg
  /\ turn config w logging st r =
       (count (record a st),
        evs ++ (run_pre_command_hooks config a).1
          ++ [EvPrint (to config Stderr)
                (ErrorExecutingCommand (Exc ValueError msg))],
        Continues)
  /\ spawned (turn config w logging st r).1.2 = [].
Proof.
  intros a Hdisp Hpre Hcmd Hu Hq Hv.
  assert (shlex_split a = inl msg) as Ha
    by (by apply (shlex_split_open_quote _ _ _ words)).
  assert (shlex_split (full_command config a) = inl msg) as Hfull.
  { unfold full_command. by rewrite (shlex_split_append _ _ _ Hcmd), Ha. }
  split; [done |]. split; [done |].
  assert (turn config w logging st r =
            (count (record a st),
             evs ++ (run_pre_command_hooks config a).1
               ++ [EvPrint (to config Stderr)
                     (ErrorExecutingCommand (Exc ValueError msg))],
             Continues)) as Hturn.
  { rewrite (turn_execute _ w _ _ _ _ _ Hdisp). cbv zeta.
    rewrite bind_unfold. destruct Hpre as [[] ->].
    by rewrite (execute_untokenizable _ _ _ _ _ Hfull). }
  split; [done |].
  rewrite (turn_execute_events _ w _ _ _ _ _ Hdisp), spawned_app, run_spawned.
  rewrite execute_spawned, Hfull.
  pose proof (spawned_none _ (dispatch_no_spawn config logging st r)) as Hn.
  rewrite Hdisp in Hn. simpl in Hn. rewrite Hn.
  by destruct ((run_pre_command_hooks config a).2).
Qed.

Lemma unterminated_quote_is_reported_witness :
  turn (default_config "echo") quiet_world false initial
    (Line (String "034" "a" +:+ String "034" " 'b\c"))
  = (St 1 [String "034" "a" +:+ String "034" " 'b\c"],
     [EvInput (Prompt "{command} >>> " "echo" 0);
      EvPrint Stderr
        (ErrorExecutingCommand (Exc ValueError "No closing quotation"))],
     Continues).
Proof.
  refine (proj1 (proj2 (proj2
            (unterminated_quote_is_reported (default_config "echo") quiet_world
               false initial (Line (String "034" "a" +:+ String "034" " 'b\c")) _
               (String "034" "a" +:+ String "034" " ") "'" "b\c"
               ["echo"] ["a"] "No closing quotation"
               eq_refl _ eq_refl eq_refl eq_refl eq_refl)))).
  by exists ().
Defined.

End Lines.

Section Execution.

(** C1. With a timeout shorter than the time the child runs, the wait
    raises [subprocess.TimeoutExpired], which the [except TimeoutError]
    clause does not catch: the child is not killed, no output is collected
    or delivered, and the report is the one of any failed execution. *)
Theorem timeout_is_not_enforced config w logging a argv p t :
  shlex_split (full_command config a) = inr argv ->
  Popen w argv = inr p ->
  proc_wait_error p = None ->
  timeout config = Some t ->
  t < proc_runtime p ->
  execute_command config w logging a =
    ([EvPopen argv;
      EvCommunicate (Some t);
      EvPrint (to config Stderr)
        (ErrorExecutingCommand (Exc TimeoutExpired "timed out"))],
     inr ()).
Proof.
  intros Hargv Hp Hwait Ht Hlt.
  apply Nat.ltb_lt in Hlt.
  unfold execute_command, tokenize. rewrite Hargv.
  rewrite try_except_unfold, !bind_unfold. simpl.
  unfold spawn. rewrite Hp. simpl.
  unfold attend, wait, communicate. rewrite Hwait, Ht, Hlt. reflexivity.
Qed.

Lemma timeout_is_not_enforced_witness :
  execute_command timeout_config slow_world false "5" =
    ([EvPopen ["sleep"; "5"];
      EvCommunicate (Some 1);
      EvPrint Stderr (ErrorExecutingCommand (Exc TimeoutExpired "timed out"))],
     inr ()).
Proof.
  refine (timeout_is_not_enforced timeout_config slow_world false "5"
            ["sleep"; "5"] slow_process 1 eq_refl eq_refl eq_refl eq_refl _).
  vm_compute. lia.
Defined.

(** A turn that executes a line which tokenizes, when only errors are
    raised: one process is spawned, the line is recorded and counted. *)
Lemma turn_executes config w logging st r evs a argv :
  read_and_dispatch config logging st r = (evs, inr (Execute a)) ->
  raises_errors_only config w ->
  shlex_split (full_command config a) = inr argv ->
  exists evs',
    turn config w logging st r = (count (record a st), evs', Continues)
    /\ spawned evs' = [argv].
Proof.
  intros Hdisp Hw Hargv.
  pose proof (turn_execute_events _ w _ _ _ _ _ Hdisp) as Hevs.
  rewrite (turn_execute _ w _ _ _ _ _ Hdisp) in *. cbv zeta in *.
  destruct (run_returns config w logging a Hw) as [[] Hrun].
  rewrite Hrun in *. eexists; split; [done |].
  rewrite spawned_app, run_spawned, execute_spawned, Hargv.
  destruct (pre_hooks_return config a (proj1 Hw)) as [[] ->].
  pose proof (spawned_none _ (dispatch_no_spawn config logging st r)) as Hn.
  rewrite Hdisp in Hn. simpl in Hn. by rewrite Hn.
Qed.

Lemma loop_continues config w logging st r inputs st' evs :
  turn config w logging st r = (st', evs, Continues) ->
  _run_repl_loop config w logging st (r :: inputs) =
    (let '(st'', evs', e) := _run_repl_loop config w logging st' inputs in
     (st'', evs ++ evs', e)).
Proof. intros H. simpl. by rewrite H. Qed.

(** C2.  Base command [ls], lines [-l], [!0], [exit],
    on a machine where [ls] exists and only errors are raised: two
    processes are spawned, both with [ls -l], the counter ends at 2, and
    the session history holds two entries, [-l] at index 0 and the re-run
    [-l] at index 1. *)
Theorem scenario_ls_rerun w :
  which w "ls" = true ->
  raises_errors_only (default_config "ls") w ->
  let '(st, evs, e) :=
    replize (default_config "ls") w [Line "-l"; Line "!0"; Line "exit"] in
  spawned evs = [["ls"; "-l"]; ["ls"; "-l"]]
  /\ command_counter st = 2
  /\ session_history st = ["-l"; "-l"]
  /\ e = Returned.
Proof.
  intros Hwhich Hw. unfold replize.
  change (validate_command (default_config "ls")) with true.
  change (validate_base_command w (command (default_config "ls")))
    with (Some (which w "ls")).
  change (log_path (default_config "ls")) with (@None string).
  rewrite Hwhich. cbv iota beta.
  destruct (turn_executes (default_config "ls") w false initial (Line "-l")
              _ "-l" ["ls"; "-l"] eq_refl Hw eq_refl) as (evs1 & Ht1 & Hs1).
  destruct (turn_executes (default_config "ls") w false
              (count (record "-l" initial)) (Line "!0")
              _ "-l" ["ls"; "-l"] eq_refl Hw eq_refl) as (evs2 & Ht2 & Hs2).
  rewrite (loop_continues _ _ _ _ _ _ _ _ Ht1).
  rewrite (loop_continues _ _ _ _ _ _ _ _ Ht2).
  change (_run_repl_loop (default_config "ls") w false
            (count (record "-l" (count (record "-l" initial)))) [Line "exit"])
    with (St 2 ["-l"; "-l"], [EvInput (Prompt "{command} >>> " "ls" 2)], Returned).
  cbv iota beta. rewrite !spawned_app, Hs1, Hs2. done.
Qed.

Lemma scenario_ls_rerun_witness :
  let '(st, evs, e) :=
    replize (default_config "ls") quiet_world [Line "-l"; Line "!0"; Line "exit"] in
  spawned evs = [["ls"; "-l"]; ["ls"; "-l"]]
  /\ command_counter st = 2
  /\ session_history st = ["-l"; "-l"]
  /\ e = Returned.
Proof.
  refine (scenario_ls_rerun quiet_world eq_refl _).
  repeat split; try done.
  - intros hook ? ? ? Hin. by apply elem_of_nil in Hin.
  - intros hook ? ? ? ? ? ? Hin. by apply elem_of_nil in Hin.
  - simpl. by intros ? ? ? [= <-].
Defined.

(** C2 with a single history entry does not hold: after the scenario the
    session history is not the single entry [-l]. *)
Lemma scenario_history_is_not_single :
  ~ (let '(st, evs, e) :=
       replize (default_config "ls") quiet_world
         [Line "-l"; Line "!0"; Line "exit"] in
     spawned evs = [["ls"; "-l"]; ["ls"; "-l"]]
     /\ command_counter st = 2
     /\ session_history st = ["-l"]).
Proof. vm_compute. intros (_ & _ & H). discriminate H. Qed.

End Execution.

Section SessionEnd.














End SessionEnd.

Section Hooks.


Lemma post_hooks_loop config a rc out err hooks i :
  (forall hook c x r o e' e,
     hook ∈ hooks -> hook c x r o e' = Some e -> isinstance e Exception = true) ->
  for_each
    (fun i (hook : post_hook) =>
       try_except
         (emit_event (EvPostHook i (command config) a rc out err);;
          returned (hook (command config) a rc out err))
         (except_Exception (fun e => say config Stderr (PostCommandHookError e))))
    i hooks
  = (post_hooks_trace config a rc out err i hooks, inr ()).
Proof.
  revert i. induction hooks as [|hook hooks IH]; intros i H; [done |].
  simpl for_each. rewrite IH by (intros; eapply H; [by right | done]).
  simpl post_hooks_trace.
  destruct (hook (command config) a rc out err) as [e|] eqn:E; [| done].
  rewrite try_except_unfold. simpl.
  rewrite except_Exception_catches by (eapply H; [by left | done]).
  done.
Qed.





(** ** Computations that differ by hook reports only *)







Lemma post_hooks_events config a rc out err :
  hooks_raise_errors config ->
  run_post_command_hooks config a rc out err
  = (post_hooks_trace config a rc out err 0 (post_command_hooks config), inr ()).
Proof.
  intros [_ Hpost]. apply post_hooks_loop. intros hook c x r o e' e. apply Hpost.
Qed.




End Hooks.

Section HookIsolation.



End HookIsolation.

(* ================================================================== *)
(** * Further properties of the loop *)
(* ================================================================== *)

Section LineKinds.

Lemma in_exit_words (words : gset string) (s : string) :
  bool_decide (s ∈ words) = true -> s ∈ words.
Proof. apply bool_decide_eq_true_1. Qed.

Lemma dispatch_exit_word config logging st s :
  strip s <> "" -> first_word s ∈ exit_commands config ->
  read_and_dispatch config logging st (Line s)
  = (prelude config logging st (strip s), inr (Done Break)).
Proof.
  intros Hs Hw. unfold read_and_dispatch, first_word in *.
  rewrite (bool_decide_eq_false_2 _ Hs), (bool_decide_eq_true_2 _ Hw).
  unfold prelude. by destruct logging.
Qed.

(** X1. A non-blank line whose first word is an exit word ends the loop at
    once, whatever follows the word on the line and whatever lines would
    come next: the state is unchanged, nothing is spawned, and after the
    prompt (and the echo in the log) nothing else happens; no further
    prompt is issued. *)
Theorem exit_word_ends_loop config w logging st s inputs :
  strip s <> "" ->
  first_word s ∈ exit_commands config ->
  _run_repl_loop config w logging st (Line s :: inputs)
  = (st, prelude config logging st (strip s), Returned).
Proof.
  intros Hs Hw. simpl.
  by rewrite (turn_done _ w _ _ _ _ _ (dispatch_exit_word _ logging st _ Hs Hw)).
Qed.

Lemma exit_word_ends_loop_witness :
  _run_repl_loop (default_config "ls") quiet_world false (St 2 ["-l"; "-a"])
    [Line "  quit now "; Line "-l"]
  = (St 2 ["-l"; "-a"], [EvInput (Prompt "{command} >>> " "ls" 2)], Returned).
Proof.
  refine (exit_word_ends_loop (default_config "ls") quiet_world false
            (St 2 ["-l"; "-a"]) "  quit now " [Line "-l"] _ _).
  - by vm_compute.
  - apply in_exit_words. by vm_compute.
Defined.

(** The events of the first half of a turn on a non-blank line start with
    the prompt and the echo. *)
Lemma dispatch_starts_with_prelude config logging st s :
  strip s <> "" ->
  exists rest,
    (read_and_dispatch config logging st (Line s)).1
    = prelude config logging st (strip s) ++ rest.
Proof.
  intros Hs. unfold read_and_dispatch.
  rewrite (bool_decide_eq_false_2 _ Hs).
  rewrite bind_unfold. simpl emit_event. cbn [fst snd].
  rewrite bind_unfold.
  destruct logging; cbn [when fst snd]; unfold prelude.
  - rewrite (bind_unfold (emit_event _)). cbn [emit_event fst snd].
    eexists. simpl. reflexivity.
  - eexists. simpl. reflexivity.
Qed.

(** X13. With a log open, every non-blank line is written to the log, with
    the prompt it answers, and flushed right after it is read: before the
    exit test, the built-in commands and the execution. *)
Theorem line_is_logged_first config w st s :
  strip s <> "" ->
  exists rest,
    (turn config w true st (Line s)).1.2
    = [EvInput (get_prompt config st);
       EvLogInput (get_prompt config st) (strip s);
       EvLogFlush] ++ rest.
Proof.
  intros Hs.
  destruct (dispatch_starts_with_prelude config true st s Hs) as [rest Hrest].
  unfold turn.
  destruct (read_and_dispatch config true st (Line s)) as [evs [e|[[|]|a]]];
    simpl in Hrest; subst evs; try by exists rest.
  destruct (run_pre_command_hooks config a;; execute_command config w true a)
    as [evs' [e|[]]]; simpl; eexists; reflexivity.
Qed.

Lemma line_is_logged_first_witness :
  exists rest,
    (turn (default_config "ls") quiet_world true initial (Line " exit ")).1.2
    = [EvInput (Prompt "{command} >>> " "ls" 0);
       EvLogInput (Prompt "{command} >>> " "ls" 0) "exit";
       EvLogFlush] ++ rest.
Proof.
  refine (line_is_logged_first (default_config "ls") quiet_world initial " exit " _).
  by vm_compute.
Defined.

End LineKinds.

Section BuiltinHistory.

Lemma for_each_say config plain (f : nat -> string -> message) i l :
  for_each (fun i x => say config plain (f i x)) i l
  = (imap (fun j x => EvPrint (to config plain) (f (i + j) x)) l, inr ()).
Proof.
  revert i. induction l as [|x l IH]; intros i; [done |].
  simpl for_each. rewrite IH. simpl. unfold to.
  rewrite Nat.add_0_r. do 2 f_equal.
  apply imap_ext. intros j y _. simpl. by rewrite Nat.add_succ_r.
Qed.

Lemma print_history_events config st :
  _print_history config st = (history_listing config st, inr ()).
Proof.
  unfold _print_history, history_listing.
  destruct (session_history st) as [|a l] eqn:E; [done |].
  rewrite bind_unfold. simpl say. cbn [fst snd].
  rewrite for_each_say. done.
Qed.

(** X6. The [history] command (first word [history], anything after it is
    ignored) prints "No command history" when the session history is empty,
    and otherwise a header followed by one line per entry, in order; the
    line numbered [i] shows the entry at position [i], the one [!i]
    re-runs.  The state is unchanged and the loop continues. *)
Theorem history_command_lists_entries config w logging st s :
  first_word s = "history" ->
  "history" ∉ exit_commands config ->
  turn config w logging st (Line s)
  = (st, prelude config logging st (strip s) ++ history_listing config st,
     Continues)
  /\ (forall i cmd,
        EvPrint (to config Stdout) (CommandHistoryLine i cmd)
          ∈ history_listing config st
        <-> session_history st !! i = Some cmd).
Proof.
  intros Hw Hex. split.
  - assert (strip s <> "") as Hs by (intros E; unfold first_word in Hw; by rewrite E in Hw).
    apply (turn_done _ w _ _ _ _ Continue).
    unfold read_and_dispatch, _handle_builtin_command.
    rewrite (bool_decide_eq_false_2 _ Hs).
    unfold first_word in Hw.
    destruct (split (strip s)) as [|cmd rest]; [done |]. simpl in Hw. subst cmd.
    simpl hd. rewrite (bool_decide_eq_false_2 _ Hex).
    rewrite print_history_events. unfold prelude.
    destruct logging; simpl; by rewrite ?app_nil_r.
  - intros i cmd. unfold history_listing.
    destruct (session_history st) as [|a l] eqn:E.
    + rewrite lookup_nil. split; [| done].
      intros H%list_elem_of_singleton. done.
    + rewrite <- E. clear E. rewrite elem_of_cons, elem_of_lookup_imap. split.
      * intros [H | (j & y & H & Hj)]; [done |]. by injection H as -> ->.
      * intros H. right. by exists i, cmd.
Qed.

Lemma history_command_lists_entries_witness :
  turn (default_config "ls") quiet_world false (St 2 ["-l"; "-a"]) (Line "history")
  = (St 2 ["-l"; "-a"],
     [EvInput (Prompt "{command} >>> " "ls" 2);
      EvPrint Stdout CommandHistoryHeader;
      EvPrint Stdout (CommandHistoryLine 0 "-l");
      EvPrint Stdout (CommandHistoryLine 1 "-a")],
     Continues).
Proof.
  refine (proj1 (history_command_lists_entries (default_config "ls") quiet_world
                   false (St 2 ["-l"; "-a"]) "history" eq_refl _)).
  apply not_exit_word. by vm_compute.
Defined.

End BuiltinHistory.

Section SpacedReference.

(** X15. The number of a history reference is read by [int] from all that
    follows the bang on the line, so whitespace between the bang and the
    number is accepted: [! 0] re-runs entry 0 like [!0] does, and reports
    an index out of range in the same way. *)
Theorem spaced_bang_is_a_reference config w logging st s sp n index :
  strip s = String "!" (String sp n) ->
  isspace sp = true ->
  "!" ∉ exit_commands config ->
  int (String sp n) = Some index ->
  if in_history st index then
    exists entry,
      session_history st !! Z.to_nat index = Some entry
      /\ read_and_dispatch config logging st (Line s)
         = (prelude config logging st (strip s)
              ++ [EvPrint (to config Stdout) (ReRunning entry)],
            inr (Execute entry))
  else
    turn config w logging st (Line s)
    = (st,
       prelude config logging st (strip s)
         ++ [EvPrint (to config Stderr) (HistoryIndexOutOfRange index)],
       Continues).
Proof.
  intros Hs Hsp Hex Hint.
  assert (read_and_dispatch config logging st (Line s)
          = if in_history st index then
              match session_history st !! Z.to_nat index with
              | Some entry =>
                  (prelude config logging st (strip s)
                     ++ [EvPrint (to config Stdout) (ReRunning entry)],
                   inr (Execute entry))
              | None =>
                  (prelude config logging st (strip s),
                   inl (Exc IndexError "list index out of range"))
              end
            else
              (prelude config logging st (strip s)
                 ++ [EvPrint (to config Stderr) (HistoryIndexOutOfRange index)],
               inr (Done Continue))) as Hd.
  { unfold read_and_dispatch, _handle_builtin_command. rewrite Hs.
    rewrite (split_visible "!") by done. simpl split_from. rewrite Hsp.
    simpl hd.
    rewrite (bool_decide_eq_false_2 (String "!" _ = "")) by done.
    rewrite (bool_decide_eq_false_2 _ Hex).
    rewrite !(bool_decide_eq_false_2 ("!" = _)) by done.
    simpl startswith_bang. simpl drop1. simpl String.length. rewrite Hint.
    unfold prelude, to, say.
    destruct (in_history st index);
      [destruct (session_history st !! Z.to_nat index) |]; by destruct logging. }
  destruct (in_history st index) eqn:Hin.
  - destruct (in_history_lookup _ _ Hin) as [entry Hentry].
    rewrite Hentry in Hd. by exists entry.
  - by rewrite (turn_done _ w _ _ _ _ _ Hd).
Qed.

Lemma spaced_bang_is_a_reference_witness :
  exists entry,
    session_history (St 1 ["-l"]) !! Z.to_nat 0 = Some entry
    /\ read_and_dispatch (default_config "ls") false (St 1 ["-l"]) (Line "! 0")
       = ([EvInput (Prompt "{command} >>> " "ls" 1);
           EvPrint Stdout (ReRunning entry)],
          inr (Execute entry)).
Proof.
  refine (spaced_bang_is_a_reference (default_config "ls") quiet_world false
            (St 1 ["-l"]) "! 0" " " "0" 0 eq_refl eq_refl _ eq_refl).
  apply not_exit_word. by vm_compute.
Defined.

End SpacedReference.

Section Invariants.

Lemma lstrip_idemp (s : string) : lstrip (lstrip s) = lstrip s.
Proof.
  induction s as [|c s IH]; [done |]. simpl.
  destruct (isspace c) eqn:E; [done |]. simpl. by rewrite E.
Qed.

Lemma strip_idemp (s : string) : strip (strip s) = strip s.
Proof.
  unfold strip at 1. rewrite rstrip_strip. unfold strip. apply lstrip_idemp.
Qed.

(** Where an executed argument string comes from: the trimmed line, or
    the session history. *)
Lemma dispatch_execute_source config logging st r evs a :
  read_and_dispatch config logging st r = (evs, inr (Execute a)) ->
  (exists s, r = Line s /\ a = strip s /\ strip s <> ""
             /\ first_word s ∉ exit_commands config)
  \/ a ∈ session_history st.
Proof.
  intros H. destruct r as [s|e|e]; [| done..].
  pose proof (dispatch_verdict config logging st s) as Hv.
  rewrite H in Hv. simpl in Hv.
  destruct (bool_decide (strip s = "")) eqn:Hs; [done |].
  apply bool_decide_eq_false in Hs.
  destruct (bool_decide (first_word s ∈ exit_commands config)) eqn:Hw; [done |].
  apply bool_decide_eq_false in Hw.
  destruct ((_handle_builtin_command config st (strip s)).2) as [e|[|]];
    try done.
  assert ((inr (Execute a) : exc + verdict) = inr (Execute (strip s)) ->
          (exists s0, Line s = Line s0 /\ a = strip s0 /\ strip s0 <> ""
                      /\ first_word s0 ∉ exit_commands config)
          \/ a ∈ session_history st) as Hline.
  { intros [= ->]. left. by exists s. }
  destruct (startswith_bang (strip s) && Nat.ltb 1 (String.length (strip s)));
    [| by apply Hline].
  destruct (int (drop1 (strip s))) as [index|]; [| by apply Hline].
  destruct (in_history st index); [| done].
  destruct (session_history st !! Z.to_nat index) as [entry|] eqn:E; [| done].
  injection Hv as ->. right. by apply list_elem_of_lookup_2 in E.
Qed.

(** What one turn does to the state, and how much it spawns. *)
Lemma turn_summary config w logging st r :
  let t := turn config w logging st r in
  (t.1.1 = st /\ spawned t.1.2 = [])
  \/ (exists evs a,
        read_and_dispatch config logging st r = (evs, inr (Execute a))
        /\ session_history t.1.1 = session_history st ++ [a]
        /\ List.length (spawned t.1.2) <= 1
        /\ (t.2 = Continues /\ command_counter t.1.1 = command_counter st + 1
            \/ t.2 <> Continues /\ command_counter t.1.1 = command_counter st)).
Proof.
  cbv zeta.
  pose proof (spawned_none _ (dispatch_no_spawn config logging st r)) as Hq.
  destruct (read_and_dispatch config logging st r) as [evs [e|[f|a]]] eqn:E;
    simpl in Hq.
  - left. unfold turn. rewrite E. done.
  - left. rewrite (turn_done _ _ _ _ _ _ _ E). done.
  - right. exists evs, a. split; [done |].
    rewrite (turn_execute_history _ w _ _ _ _ _ E).
    rewrite (turn_execute_events _ w _ _ _ _ _ E).
    split; [done |]. split.
    + rewrite spawned_app, Hq, run_spawned. simpl.
      destruct ((run_pre_command_hooks config a).2); [simpl; lia |].
      rewrite execute_spawned.
      destruct (shlex_split (full_command config a)); simpl; lia.
    + rewrite (turn_execute _ w _ _ _ _ _ E). cbv zeta.
      destruct ((run_pre_command_hooks config a;;
                 execute_command config w logging a).2) as [e|[]].
      * right. split; [| done]. unfold at_loop_level.
        by destruct (isinstance_any e (exit_exceptions config)).
      * left. done.
Qed.

Lemma loop_nil config w logging st :
  (_run_repl_loop config w logging st []).1.1 = st
  /\ (_run_repl_loop config w logging st []).1.2 = [EvInput (get_prompt config st)].
Proof.
  simpl. by destruct (at_loop_level config (Exc EOFError "EOF when reading a line")).
Qed.

(** The loop, one turn at a time. *)
Lemma loop_cons config w logging st r inputs :
  _run_repl_loop config w logging st (r :: inputs) =
    let t := turn config w logging st r in
    match t.2 with
    | Continues =>
        let l := _run_repl_loop config w logging t.1.1 inputs in
        (l.1.1, t.1.2 ++ l.1.2, l.2)
    | Breaks => (t.1.1, t.1.2, Returned)
    | Raises e => (t.1.1, t.1.2, Raised e)
    end.
Proof.
  simpl. destruct (turn config w logging st r) as [[st' evs] [| |e]]; try done.
  simpl. by destruct (_run_repl_loop config w logging st' inputs) as [[st'' evs'] e].
Qed.

(** X2. The session history only grows, at its end: what it holds when a
    loop starts is a prefix of what it holds when the loop is left; no
    entry is ever changed or removed. *)
Theorem history_is_append_only config w logging st inputs :
  session_history st
    `prefix_of` session_history (_run_repl_loop config w logging st inputs).1.1.
Proof.
  revert st. induction inputs as [|r inputs IH]; intros st.
  - by rewrite (proj1 (loop_nil config w logging st)).
  - rewrite loop_cons. cbv zeta.
    assert (session_history st
              `prefix_of` session_history (turn config w logging st r).1.1) as Ht.
    { destruct (turn_summary config w logging st r)
        as [[-> _] | (evs & a & _ & -> & _)]; [done |].
      by apply prefix_app_r. }
    destruct ((turn config w logging st r).2); simpl; [| done..].
    etrans; [exact Ht | apply IH].
Qed.

End Invariants.

Section LoopInduction.

(** A property of the state that every turn keeps, and a property of the
    events that every turn satisfies, hold of the whole loop. *)
Lemma loop_invariant config w logging (I : State -> Prop) (Q : event -> Prop) :
  (forall st r,
     I st ->
     I (turn config w logging st r).1.1 /\ Forall Q (turn config w logging st r).1.2) ->
  (forall p, Q (EvInput p)) ->
  forall inputs st,
    I st ->
    I (_run_repl_loop config w logging st inputs).1.1
    /\ Forall Q (_run_repl_loop config w logging st inputs).1.2.
Proof.
  intros Hturn Hinput. induction inputs as [|r inputs IH]; intros st Hst.
  - destruct (loop_nil config w logging st) as [-> ->]. split; [done |].
    by repeat constructor.
  - rewrite loop_cons. cbv zeta.
    destruct (Hturn st r Hst) as [Hst' Hevs].
    destruct ((turn config w logging st r).2); simpl; [| done..].
    destruct (IH _ Hst') as [Hfinal Hevs']. split; [done |].
    by apply Forall_app.
Qed.

Lemma first_word_strip (s : string) : first_word (strip s) = first_word s.
Proof. unfold first_word. by rewrite strip_idemp. Qed.

Lemma turn_keeps_recordable config w logging st r :
  Forall (recordable config) (session_history st) ->
  Forall (recordable config) (session_history (turn config w logging st r).1.1).
Proof.
  intros H.
  destruct (turn_summary config w logging st r)
    as [[-> _] | (evs & a & Hd & -> & _)]; [done |].
  apply Forall_app. split; [done |]. apply Forall_singleton.
  destruct (dispatch_execute_source _ _ _ _ _ _ Hd)
    as [(s & _ & -> & Hs & Hw) | Hin].
  - split; [apply strip_idemp |]. split; [done |]. by rewrite first_word_strip.
  - by apply (proj1 (Forall_forall _ _) H).
Qed.

(** The final state of [replize] is that of a loop started in the initial
    state, or the initial state itself. *)
Lemma replize_state config w inputs :
  (replize config w inputs).1.1 = initial
  \/ exists logging,
       (replize config w inputs).1.1
       = (_run_repl_loop config w logging initial inputs).1.1.
Proof.
  unfold replize.
  destruct (if validate_command config
            then validate_base_command w (command config) else Some true)
    as [[|]|]; [| by left..].
  destruct (log_path config) as [path|].
  - destruct (open_append w path); [by left |]. right. exists true.
    by destruct (_run_repl_loop config w true initial inputs) as [[st evs] e].
  - right. exists false.
    by destruct (_run_repl_loop config w false initial inputs) as [[st evs] e].
Qed.

(** X3. Every entry of the session history is a line as the loop records
    them: trimmed, not empty, and not starting with an exit word.  Every
    loop keeps this, so it holds of every history [replize] ends with. *)
Theorem history_entries_are_recordable config w :
  (forall logging st inputs,
     Forall (recordable config) (session_history st) ->
     Forall (recordable config)
       (session_history (_run_repl_loop config w logging st inputs).1.1))
  /\ (forall inputs,
        Forall (recordable config)
          (session_history (replize config w inputs).1.1)).
Proof.
  assert (forall logging st inputs,
            Forall (recordable config) (session_history st) ->
            Forall (recordable config)
              (session_history (_run_repl_loop config w logging st inputs).1.1))
    as Hloop.
  { intros logging st inputs Hst.
    refine (proj1 (loop_invariant config w logging
                     (fun st => Forall (recordable config) (session_history st))
                     (fun _ => True) _ _ inputs st Hst)); [| done].
    intros st' r Hst'. split; [by apply turn_keeps_recordable |].
    apply Forall_forall. done. }
  split; [done |]. intros inputs.
  destruct (replize_state config w inputs) as [-> | [logging ->]].
  - constructor.
  - apply Hloop. constructor.
Qed.

Lemma history_entries_are_recordable_witness :
  Forall (recordable (default_config "ls"))
    (session_history
       (_run_repl_loop (default_config "ls") quiet_world false (St 1 ["-l"])
          [Line " -a "; Line "!0"]).1.1).
Proof.
  refine (proj1 (history_entries_are_recordable (default_config "ls") quiet_world)
            false (St 1 ["-l"]) [Line " -a "; Line "!0"] _).
  apply Forall_singleton. split; [done |]. split; [done |].
  apply not_exit_word. by vm_compute.
Defined.

End LoopInduction.

Section NoEmptyCommand.

Lemma append_snoc_nonempty (s : string) (c : ascii) : s +:+ String c "" <> "".
Proof. by destruct s. Qed.

Lemma yield_nonempty token later tokens :
  yield token later = inr tokens -> tokens <> [].
Proof. intros (rest & _ & ->)%yield_inr. done. Qed.

(** Once the tokenizer holds the beginning of a token, the result has a
    token, or is an error. *)
Lemma lex_pending state token quoted s tokens :
  pending state token quoted ->
  lex state token quoted s = inr tokens -> tokens <> [].
Proof.
  revert state token quoted.
  induction s as [|c s IH]; intros state token quoted Hp; simpl.
  - destruct state; try done. 
    + intros [= <-]. unfold emit. simpl in Hp.
      destruct Hp as [Hp | ->]; [| by destruct (bool_decide (token = ""))].
      rewrite (bool_decide_eq_false_2 _ Hp). by rewrite andb_false_r.
    + intros [= <-]. unfold emit. simpl in Hp.
      destruct Hp as [Hp | ->]; [| by destruct (bool_decide (token = ""))].
      rewrite (bool_decide_eq_false_2 _ Hp). by rewrite andb_false_r.
  - assert (negb (bool_decide (token = "")) || quoted = true
            \/ state <> InWhitespace /\ state <> InWord) as Hc.
    { destruct state; simpl in Hp; try (by right).
      - left. destruct Hp as [Hp | ->]; [| by rewrite orb_true_r].
        by rewrite (bool_decide_eq_false_2 _ Hp).
      - left. destruct Hp as [Hp | ->]; [| by rewrite orb_true_r].
        by rewrite (bool_decide_eq_false_2 _ Hp). }
    destruct state as [| |q|[q|]].
    + destruct Hc as [-> | [? _]]; [| done].
      destruct (shlex_whitespace c); [apply yield_nonempty |].
      destruct (shlex_escape c); [by apply IH |].
      destruct (shlex_quote c); [by apply IH |].
      apply IH. by left.
    + destruct Hc as [-> | [_ ?]]; [| done].
      destruct (shlex_whitespace c); [apply yield_nonempty |].
      destruct (shlex_quote c); [by apply IH |].
      destruct (shlex_escape c); [by apply IH |].
      apply IH. left. apply append_snoc_nonempty.
    + destruct (bool_decide (c = q)); [apply IH; by right |].
      destruct (shlex_escape c && shlex_escapedquote q); by apply IH.
    + by apply IH.
    + apply IH. left. apply append_snoc_nonempty.
Qed.

(** A string with a character that is no tokenizer whitespace has a
    token. *)
Lemma lex_visible state token quoted u c v tokens :
  shlex_whitespace c = false ->
  lex state token quoted (u +:+ String c v) = inr tokens -> tokens <> [].
Proof.
  intros Hc. revert state token quoted tokens.
  induction u as [|d u IH]; intros state token quoted tokens.
  - rewrite append_nil_l. simpl.
    destruct state as [| |q|[q|]]; rewrite ?Hc.
    + destruct (shlex_escape c); [by apply lex_pending |].
      destruct (shlex_quote c); [by apply lex_pending |].
      apply lex_pending. by left.
    + destruct (shlex_quote c); [by apply lex_pending |].
      destruct (shlex_escape c); [by apply lex_pending |].
      apply lex_pending. left. apply append_snoc_nonempty.
    + destruct (bool_decide (c = q)); [apply lex_pending; by right |].
      destruct (shlex_escape c && shlex_escapedquote q); by apply lex_pending.
    + by apply lex_pending.
    + apply lex_pending. left. apply append_snoc_nonempty.
  - rewrite append_cons. simpl.
    destruct state as [| |q|[q|]];
      repeat match goal with
             | |- context [ if ?b then _ else _ ] => destruct b
             end;
      try apply IH; apply yield_nonempty.
Qed.

Lemma shlex_whitespace_isspace (c : ascii) :
  shlex_whitespace c = true -> isspace c = true.
Proof.
  unfold shlex_whitespace.
  intros [[[H|H]%orb_prop|H]%orb_prop|H]%orb_prop;
    apply bool_decide_eq_true in H; by subst.
Qed.

Lemma lstrip_head (s : string) c r : lstrip s = String c r -> isspace c = false.
Proof.
  induction s as [|d s IH]; [done |]. simpl.
  destruct (isspace d) eqn:E; [done |]. by intros [= <- _].
Qed.

(** A trimmed, non-empty string starts with a visible character. *)
Lemma trimmed_head (a : string) :
  strip a = a -> a <> "" ->
  exists c r, a = String c r /\ shlex_whitespace c = false.
Proof.
  intros Hs Ha. destruct a as [|c r]; [done |]. exists c, r. split; [done |].
  apply lstrip_head in Hs. destruct (shlex_whitespace c) eqn:E; [| done].
  apply shlex_whitespace_isspace in E. congruence.
Qed.

Lemma full_command_has_tokens config a argv :
  strip a = a -> a <> "" ->
  shlex_split (full_command config a) = inr argv -> argv <> [].
Proof.
  intros Hs Ha. destruct (trimmed_head a Hs Ha) as (c & r & -> & Hc).
  unfold full_command, shlex_split.
  rewrite <- (append_assoc (command config) " " (String c r)).
  by apply lex_visible.
Qed.

Lemma elem_of_spawned evs argv : EvPopen argv ∈ evs -> argv ∈ spawned evs.
Proof.
  induction evs as [|ev evs IH]; [by intros ?%elem_of_nil |].
  intros [<- | H]%elem_of_cons.
  - by left.
  - destruct ev; simpl; try (by apply IH). right. by apply IH.
Qed.

Lemma turn_spawns_commands config w logging st r :
  Forall (recordable config) (session_history st) ->
  Forall spawns_a_command (turn config w logging st r).1.2.
Proof.
  intros Hst. apply Forall_forall. intros ev Hev.
  destruct ev; try done. simpl.
  apply elem_of_spawned in Hev.
  destruct (turn_spawned _ _ _ _ _ _ Hev) as (evs & a & Hd & Hargv).
  destruct (dispatch_execute_source _ _ _ _ _ _ Hd)
    as [(s & _ & -> & Hs & _) | Hin].
  - by eapply full_command_has_tokens; [apply strip_idemp | |].
  - destruct (proj1 (Forall_forall _ _) Hst a Hin) as (Htrim & Ha & _).
    by eapply full_command_has_tokens.
Qed.

(** X4. No process is ever spawned with an empty argument vector: every
    executed line is trimmed and not empty, and a string with a visible
    character has at least one token.  This holds of every session,
    whatever the base command, even an empty one. *)
Theorem argv_is_never_empty config w inputs argv :
  EvPopen argv ∈ (replize config w inputs).1.2 -> argv <> [].
Proof.
  assert (forall logging,
            Forall spawns_a_command
              (_run_repl_loop config w logging initial inputs).1.2) as Hloop.
  { intros logging.
    refine (proj2 (loop_invariant config w logging
                     (fun st => Forall (recordable config) (session_history st))
                     spawns_a_command _ _ inputs initial _)); [| done | constructor].
    intros st r Hst. split.
    - by apply turn_keeps_recordable.
    - by apply turn_spawns_commands. }
  assert (Forall spawns_a_command (replize config w inputs).1.2) as Hall.
  { unfold replize.
    destruct (if validate_command config
              then validate_base_command w (command config) else Some true)
      as [[|]|]; [| by repeat constructor..].
    destruct (log_path config) as [path|].
    - destruct (open_append w path); [by repeat constructor |].
      specialize (Hloop true).
      destruct (_run_repl_loop config w true initial inputs) as [[st evs] e].
      simpl in *. repeat constructor. apply Forall_app. split; [done |].
      unfold finally. destruct (verbose_exit config); by repeat constructor.
    - specialize (Hloop false).
      destruct (_run_repl_loop config w false initial inputs) as [[st evs] e].
      simpl in *. apply Forall_app. split; [done |].
      unfold finally. destruct (verbose_exit config); by repeat constructor. }
  intros Hin. by apply (proj1 (Forall_forall _ _) Hall (EvPopen argv)).
Qed.

Lemma argv_is_never_empty_witness :
  EvPopen ["ls"; "-l"]
    ∈ (replize (default_config "ls") quiet_world [Line "-l"; Line "exit"]).1.2
  /\ ["ls"; "-l"] <> [].
Proof.
  assert (EvPopen ["ls"; "-l"]
            ∈ (replize (default_config "ls") quiet_world
                 [Line "-l"; Line "exit"]).1.2) as H
    by (vm_compute; right; left).
  split; [exact H |].
  exact (argv_is_never_empty (default_config "ls") quiet_world
           [Line "-l"; Line "exit"] ["ls"; "-l"] H).
Defined.

End NoEmptyCommand.

Section Counting.


Lemma turn_executed_continues config w logging st r evs a :
  raises_errors_only config w ->
  read_and_dispatch config logging st r = (evs, inr (Execute a)) ->
  (turn config w logging st r).2 = Continues.
Proof.
  intros Hw E. rewrite (turn_execute _ w _ _ _ _ _ E). cbv zeta.
  by destruct (run_returns config w logging a Hw) as [[] ->].
Qed.

(** X5. Over any run of the loop: every spawned process belongs to a line
    that was appended to the history; the counter grows by no more than
    the history does, and by one less at most (when the last line was
    interrupted); and when nothing but errors deriving from [Exception] is
    raised, the counter and the history grow by the same number, so that in
    a session started by [replize] the number shown in the prompt is the
    length of the history. *)
Theorem counter_follows_history config w logging st inputs :
  let l := _run_repl_loop config w logging st inputs in
  List.length (spawned l.1.2) + List.length (session_history st)
    <= List.length (session_history l.1.1)
  /\ command_counter l.1.1 + List.length (session_history st)
     <= command_counter st + List.length (session_history l.1.1)
  /\ command_counter st + List.length (session_history l.1.1)
     <= S (command_counter l.1.1 + List.length (session_history st))
  /\ (raises_errors_only config w ->
      command_counter l.1.1 + List.length (session_history st)
      = command_counter st + List.length (session_history l.1.1)).
Proof.
  cbv zeta. revert st. induction inputs as [|r inputs IH]; intros st.
  - destruct (loop_nil config w logging st) as [-> ->]. simpl. lia.
  - rewrite loop_cons. cbv zeta.
    specialize (IH (turn config w logging st r).1.1).
    destruct (turn_summary config w logging st r)
      as [[Hst Hsp] | (evs & a & Hd & Hh & Hsp & Hc)].
    + rewrite Hst in *.
      destruct ((turn config w logging st r).2); simpl;
        rewrite ?Hst, ?spawned_app, ?Hsp; simpl; [done | lia..].
    + assert (List.length (session_history (turn config w logging st r).1.1)
              = S (List.length (session_history st))) as Hlen
        by (rewrite Hh, length_app; simpl; lia).
      destruct Hc as [[Ho Hc] | [Ho Hc]].
      * rewrite Ho. simpl. rewrite spawned_app, length_app.
        destruct IH as (IH1 & IH2 & IH3 & IH4).
        repeat split; try lia. intros Hw. specialize (IH4 Hw). lia.
      * pose proof (turn_executed_continues config w logging st r evs a) as Hw.
        destruct ((turn config w logging st r).2) eqn:E; [done | ..];
          simpl; repeat split; try lia; intros H; by specialize (Hw H Hd).
Qed.

Lemma counter_follows_history_witness :
  let l := _run_repl_loop (default_config "ls") quiet_world false (St 3 ["a"])
             [Line "-l"; Line "help"; Line "!0"] in
  command_counter l.1.1 + List.length (session_history (St 3 ["a"]))
  = command_counter (St 3 ["a"]) + List.length (session_history l.1.1).
Proof.
  refine (proj2 (proj2 (proj2
            (counter_follows_history (default_config "ls") quiet_world false
               (St 3 ["a"]) [Line "-l"; Line "help"; Line "!0"]))) _).
  repeat split; try done.
  - intros hook ? ? ? Hin. by apply elem_of_nil in Hin.
  - intros hook ? ? ? ? ? ? Hin. by apply elem_of_nil in Hin.
  - simpl. by intros ? ? ? [= <-].
Defined.




End Counting.

Section Executor.

Lemma elem_of_bind_events {A B} (m : io A) (k : A -> io B) ev :
  ev ∈ (m ≫= k).1 ->
  ev ∈ m.1 \/ exists a, m.2 = inr a /\ ev ∈ (k a).1.
Proof.
  rewrite bind_unfold. destruct (m.2) as [e|a]; simpl; [by left |].
  intros [H | H]%elem_of_app; [by left |]. right. by exists a.
Qed.

Lemma elem_of_try_events {A} (body : io A) handler ev :
  ev ∈ (try_except body handler).1 ->
  ev ∈ body.1
  \/ exists e h, body.2 = inl e /\ handler e = Some h /\ ev ∈ h.1.
Proof.
  rewrite try_except_unfold. destruct (body.2) as [e|a]; simpl; [| by left].
  destruct (handler e) as [h|] eqn:E; simpl; [| by left].
  intros [H | H]%elem_of_app; [by left |]. right. by exists e, h.
Qed.

Lemma only_events_elem (P : event -> bool) {A} (m : io A) ev :
  only_events P m -> ev ∈ m.1 -> P ev = true.
Proof.
  unfold only_events. intros H Hin.
  apply list_elem_of_In in Hin.
  by apply (proj1 (forallb_forall _ _) H).
Qed.

Lemma wait_kills config p :
  EvKill ∈ (wait config p).1 ->
  exists e, proc_wait_error p = Some e /\ isinstance e TimeoutError = true.
Proof.
  unfold wait, communicate. rewrite try_except_unfold.
  destruct (proc_wait_error p) as [e|]; simpl.
  - destruct (isinstance e TimeoutError) eqn:E; [by exists e |].
    simpl. by intros [?|?%elem_of_nil]%elem_of_cons.
  - destruct (timeout config) as [t|]; [destruct (Nat.ltb t (proc_runtime p))|];
      simpl; by intros [?|?%elem_of_nil]%elem_of_cons.
Qed.

Lemma attend_rest_no_kill config w logging a stdout stderr returncode :
  only_events (fun ev => negb (is_kill ev))
    (when (negb (bool_decide (stdout = [])))
       (emit_event (EvStdoutCallback stdout);;
        call_callback w (stdout_callback config) stdout;;
        when logging (log_output w stdout));;
     when (negb (bool_decide (stderr = [])))
       (emit_event (EvStderrCallback stderr);;
        call_callback w (stderr_callback config) stderr;;
        when logging (log_output w stderr));;
     when (show_return_code config && negb (bool_decide (returncode = 0%Z)))
       (say config Stderr (ReturnCode returncode));;
     run_post_command_hooks config a returncode stdout stderr).
Proof.
  unfold run_post_command_hooks, call_callback, log_output. follow_events.
Qed.

Lemma dispatch_no_kill config logging st r :
  only_events (fun ev => negb (is_kill ev)) (read_and_dispatch config logging st r).
Proof.
  unfold read_and_dispatch, _handle_builtin_command, _print_help, _print_history.
  follow_events.
Qed.

Lemma pre_hooks_no_kill config a :
  only_events (fun ev => negb (is_kill ev)) (run_pre_command_hooks config a).
Proof. unfold run_pre_command_hooks. follow_events. Qed.

Lemma execute_kills config w logging a :
  EvKill ∈ (execute_command config w logging a).1 ->
  exists argv p, Popen w argv = inr p /\ EvKill ∈ (wait config p).1.
Proof.
  unfold execute_command.
  intros [H | (e & h & _ & Hh & H)]%elem_of_try_events.
  - apply elem_of_bind_events in H as [H | (argv & _ & H)].
    { unfold tokenize in H.
      destruct (shlex_split (full_command config a)); by apply elem_of_nil in H. }
    apply elem_of_bind_events in H as [H | (p & Hp & H)].
    { unfold spawn in H. rewrite bind_unfold in H. simpl in H.
      destruct (Popen w argv); simpl in H;
        by apply elem_of_cons in H as [?|?%elem_of_nil]. }
    apply spawn_result in Hp. exists argv, p. split; [done |].
    unfold attend in H.
    apply elem_of_bind_events in H as [H | ([[stdout stderr] returncode] & _ & H)];
      [done |].
    by apply (only_events_elem _ _ _
                (attend_rest_no_kill config w logging a stdout stderr returncode))
      in H.
  - destruct (isinstance e FileNotFoundError).
    + injection Hh as <-. by apply elem_of_cons in H as [?|?%elem_of_nil].
    + unfold except_Exception in Hh. destruct (isinstance e Exception); [| done].
      injection Hh as <-. by apply elem_of_cons in H as [?|?%elem_of_nil].
Qed.

(** X8. The child is killed only when the wait raises an instance of the
    built-in [TimeoutError]: in every turn whose trace has a kill, some
    process was spawned whose wait raised such an exception.  A wait that
    only outlives the timeout never leads to a kill. *)
Theorem kill_needs_TimeoutError config w logging st r :
  EvKill ∈ (turn config w logging st r).1.2 ->
  exists argv p e,
    Popen w argv = inr p
    /\ proc_wait_error p = Some e
    /\ isinstance e TimeoutError = true.
Proof.
  intros H.
  assert (exists a, EvKill ∈ (execute_command config w logging a).1) as [a Ha].
  { destruct (read_and_dispatch config logging st r) as [evs [e|[f|a]]] eqn:E.
    - unfold turn in H. rewrite E in H. simpl in H.
      pose proof (only_events_elem _ _ EvKill
                    (dispatch_no_kill config logging st r)) as Hk.
      rewrite E in Hk. by specialize (Hk H).
    - rewrite (turn_done _ w _ _ _ _ _ E) in H. simpl in H.
      pose proof (only_events_elem _ _ EvKill
                    (dispatch_no_kill config logging st r)) as Hk.
      rewrite E in Hk. by specialize (Hk H).
    - rewrite (turn_execute_events _ w _ _ _ _ _ E) in H.
      apply elem_of_app in H as [H | H].
      + pose proof (only_events_elem _ _ EvKill
                      (dispatch_no_kill config logging st r)) as Hk.
        rewrite E in Hk. by specialize (Hk H).
      + apply elem_of_bind_events in H as [H | (_ & _ & H)].
        * by apply (only_events_elem _ _ _ (pre_hooks_no_kill config a)) in H.
        * by exists a. }
  destruct (execute_kills _ _ _ _ Ha) as (argv & p & Hp & Hk).
  destruct (wait_kills _ _ Hk) as (e & He & Hi).
  by exists argv, p, e.
Qed.

Lemma kill_needs_TimeoutError_witness :
  EvKill ∈ (turn (default_config "ls") stalled_world false initial (Line "-l")).1.2
  /\ exists argv p e,
       Popen stalled_world argv = inr p
       /\ proc_wait_error p = Some e
       /\ isinstance e TimeoutError = true.
Proof.
  assert (EvKill ∈ (turn (default_config "ls") stalled_world false initial
                      (Line "-l")).1.2) as H
    by (vm_compute; do 3 right; left).
  split; [exact H |].
  exact (kill_needs_TimeoutError (default_config "ls") stalled_world false
           initial (Line "-l") H).
Defined.

(** X10. When the spawn fails with an error deriving from [Exception],
    nothing else is attempted for the line (no wait, no callback, no
    post-command hook) and one message is printed: "Command not found" with
    the full command line when the error is a [FileNotFoundError], "Error
    executing command" with the error otherwise. *)
Theorem failed_spawn_is_reported config w logging a argv e :
  shlex_split (full_command config a) = inr argv ->
  Popen w argv = inl e ->
  isinstance e Exception = true ->
  execute_command config w logging a
  = ([EvPopen argv; execution_report config a e], inr ()).
Proof.
  intros Hargv Hp He. unfold execute_command, tokenize, execution_report.
  rewrite Hargv, try_except_unfold, !bind_unfold. simpl.
  unfold spawn. rewrite Hp. simpl. unfold except_Exception. rewrite He.
  by destruct (isinstance e FileNotFoundError).
Qed.

Lemma failed_spawn_is_reported_witness :
  execute_command (default_config "nosuch")
    (World (fun _ => inl (Exc FileNotFoundError "No such file or directory"))
           (fun _ => None) (fun _ => true) (fun _ => None))
    false "-l"
  = ([EvPopen ["nosuch"; "-l"];
      EvPrint Stderr (CommandNotFound "nosuch -l")],
     inr ()).
Proof.
  exact (failed_spawn_is_reported (default_config "nosuch")
           (World (fun _ => inl (Exc FileNotFoundError "No such file or directory"))
                  (fun _ => None) (fun _ => true) (fun _ => None))
           false "-l" ["nosuch"; "-l"]
           (Exc FileNotFoundError "No such file or directory")
           eq_refl eq_refl eq_refl).
Defined.

(** X9. The standard output is routed first, and a callback that raises on
    it ends the handling of the command: the standard error is not
    delivered, nothing more is written to the log, no return code is shown
    and no post-command hook runs.  The error is reported like a failed
    execution, and like a missing command when it is a
    [FileNotFoundError]. *)
Theorem failing_stdout_callback_ends_routing config w logging a argv p out err f e :
  shlex_split (full_command config a) = inr argv ->
  Popen w argv = inr p ->
  communicate p (timeout config) = inr (out, err) ->
  out <> [] ->
  stdout_callback config = user_callback f ->
  f out = Some e ->
  isinstance e Exception = true ->
  execute_command config w logging a
  = ([EvPopen argv; EvCommunicate (timeout config); EvStdoutCallback out;
      execution_report config a e],
     inr ()).
Proof.
  intros Hargv Hp Hc Hout Hcb Hf He.
  unfold execute_command, tokenize, execution_report.
  rewrite Hargv, try_except_unfold, !bind_unfold. simpl.
  unfold spawn. rewrite Hp. simpl.
  unfold attend, wait. rewrite Hc, Hcb. simpl.
  rewrite (bool_decide_eq_false_2 _ Hout). simpl. rewrite Hf. simpl.
  unfold except_Exception. rewrite He.
  by destruct (isinstance e FileNotFoundError).
Qed.

Lemma failing_stdout_callback_ends_routing_witness :
  execute_command raising_callback_config noisy_world true "-l"
  = ([EvPopen ["ls"; "-l"]; EvCommunicate None; EvStdoutCallback [Byte.x61];
      EvPrint Stderr (ErrorExecutingCommand (Exc ValueError "bad output"))],
     inr ()).
Proof.
  refine (failing_stdout_callback_ends_routing raising_callback_config noisy_world
            true "-l" ["ls"; "-l"] _ [Byte.x61] [Byte.x62] _
            (Exc ValueError "bad output")
            eq_refl eq_refl eq_refl _ eq_refl eq_refl eq_refl).
  done.
Defined.

End Executor.

Section PlainLines.





End PlainLines.

Section LogFile.

Lemma dispatch_no_log config st r :
  only_events (fun ev => negb (is_log_event ev))
    (read_and_dispatch config false st r).
Proof.
  unfold read_and_dispatch, _handle_builtin_command, _print_help, _print_history,
    when.
  follow_events.
Qed.

Lemma pre_hooks_no_log config a :
  only_events (fun ev => negb (is_log_event ev)) (run_pre_command_hooks config a).
Proof. unfold run_pre_command_hooks. follow_events. Qed.

Lemma execute_no_log config w a :
  only_events (fun ev => negb (is_log_event ev)) (execute_command config w false a).
Proof.
  unfold execute_command, tokenize, spawn, attend, wait, run_post_command_hooks,
    call_callback, when.
  follow_events.
Qed.

Lemma turn_no_log config w st r :
  Forall (fun ev => is_log_event ev = false) (turn config w false st r).1.2.
Proof.
  assert (forall A (m : io A),
            only_events (fun ev => negb (is_log_event ev)) m ->
            Forall (fun ev => is_log_event ev = false) m.1) as Hall.
  { intros A m H. apply Forall_forall. intros ev Hev.
    apply (only_events_elem _ _ _ H) in Hev. by apply negb_true_iff. }
  pose proof (Hall _ _ (dispatch_no_log config st r)) as Hd.
  destruct (read_and_dispatch config false st r) as [evs [e|[f|a]]] eqn:E;
    simpl in Hd.
  - unfold turn. by rewrite E.
  - by rewrite (turn_done _ w _ _ _ _ _ E).
  - rewrite (turn_execute_events _ w _ _ _ _ _ E).
    apply Forall_app. split; [done |]. apply Hall.
    apply only_events_bind; [apply pre_hooks_no_log |].
    intros _. apply execute_no_log.
Qed.

(** X12. The log file belongs to the session from its first prompt to its
    end.  Without a log file, which is the case when none is configured and
    when the configured name is the empty string, nothing is ever opened,
    written or closed.  With a name that is not empty and a file that opens,
    the trace starts with the opening and the session header, and ends with
    the closing of the file (followed by the farewell, if asked for),
    whether the loop returned or raised. *)
Theorem log_file_lifecycle config w inputs :
  (log_file config = None \/ log_file config = Some "" ->
   Forall (fun ev => is_log_event ev = false) (replize config w inputs).1.2)
  /\ (forall path,
        (if validate_command config
         then validate_base_command w (command config)
         else Some true) = Some true ->
        log_file config = Some path -> path <> "" ->
        open_append w path = None ->
        (replize config w inputs).1.2
        = [EvLogOpen path; EvLogHeader (command config)]
            ++ (_run_repl_loop config w true initial inputs).1.2
            ++ EvLogClose
               :: (if verbose_exit config
                   then [EvPrint (to config Stdout) ExitingReplize]
                   else [])
        /\ (replize config w inputs).2
           = (_run_repl_loop config w true initial inputs).2).
Proof.
  split.
  - intros Hlog. unfold replize.
    assert (log_path config = None) as ->
      by (unfold log_path; by destruct Hlog as [-> | ->]).
    destruct (if validate_command config
              then validate_base_command w (command config) else Some true)
      as [[|]|]; [| by repeat constructor..].
    pose proof (proj2 (loop_invariant config w false (fun _ => True)
                         (fun ev => is_log_event ev = false)
                         (fun st r _ => conj I (turn_no_log config w st r))
                         (fun _ => eq_refl) inputs initial I)) as Hloop.
    destruct (_run_repl_loop config w false initial inputs) as [[st evs] e].
    simpl in *. apply Forall_app. split; [done |].
    unfold finally. destruct (verbose_exit config); by repeat constructor.
  - intros path Hvalid Hlog Hpath Hopen. unfold replize, log_path.
    rewrite Hvalid, Hlog. rewrite bool_decide_eq_false_2 by done.
    rewrite Hopen.
    by destruct (_run_repl_loop config w true initial inputs) as [[st evs] e].
Qed.

Lemma log_file_lifecycle_witness :
  Forall (fun ev => is_log_event ev = false)
    (replize unnamed_log_config noisy_world [Line "-l"; Line "exit"]).1.2.
Proof.
  refine (proj1 (log_file_lifecycle unnamed_log_config noisy_world
                   [Line "-l"; Line "exit"]) _).
  by right.
Defined.

End LogFile.

Section Validation.

Lemma split_first_word (base rest : string) :
  base <> "" -> spaceless base = true ->
  hd "" (split (base +:+ " " +:+ rest)) = base.
Proof.
  intros Hb Hsp. destruct base as [|c base]; [done |].
  unfold spaceless in Hsp. simpl in Hsp. apply andb_prop in Hsp as [Hc Hsp].
  apply negb_true_iff in Hc.
  rewrite append_cons, split_visible by done.
  by rewrite (split_from_word_space _ base " " rest).
Qed.

Lemma contains_space_append (base rest : string) :
  contains_space (base +:+ " " +:+ rest) = true.
Proof.
  induction base as [|c base IH]; [done |].
  rewrite append_cons. simpl. rewrite IH. by rewrite orb_true_r.
Qed.

(** X14. Of a base command with arguments only the first word is looked
    up in the PATH, and when it is not found (and validation is on) the
    session does not start: an error is printed, no line is read, nothing
    is spawned and no log file is opened. *)
Theorem missing_command_stops_the_session config w inputs base rest :
  validate_command config = true ->
  command config = base +:+ " " +:+ rest ->
  base <> "" -> spaceless base = true ->
  which w base = false ->
  replize config w inputs
  = (initial,
     [EvPrint (to config Stderr) (CommandNotInPath (command config))],
     Returned).
Proof.
  intros Hv Hcmd Hb Hsp Hwhich. unfold replize, validate_base_command.
  rewrite Hv, Hcmd, contains_space_append.
  pose proof (split_first_word base rest Hb Hsp) as Hhd.
  destruct (split (base +:+ " " +:+ rest)) as [|word words];
    simpl in Hhd; [done |].
  subst word. by rewrite Hwhich.
Qed.

Lemma missing_command_stops_the_session_witness :
  replize (default_config "git log")
    (World (fun _ => inr quiet_process) (fun _ => None)
           (fun name => negb (bool_decide (name = "git"))) (fun _ => None))
    [Line "-n 3"]
  = (initial, [EvPrint Stderr (CommandNotInPath "git log")], Returned).
Proof.
  exact (missing_command_stops_the_session (default_config "git log")
           (World (fun _ => inr quiet_process) (fun _ => None)
                  (fun name => negb (bool_decide (name = "git"))) (fun _ => None))
           [Line "-n 3"] "git" "log" eq_refl eq_refl
           ltac:(done) eq_refl eq_refl).
Defined.

End Validation.

(* ================================================================== *)
(** * Properties of the command line and of the configuration files *)
(* ================================================================== *)

Section Kwargs.

Lemma lookup_file (defaults cmd_config : gmap string value) key :
  (cmd_config ∪ defaults) !! key = from_file defaults cmd_config key.
Proof.
  unfold from_file. destruct (cmd_config !! key) as [v|] eqn:E.
  - by apply lookup_union_Some_l.
  - by apply lookup_union_r.
Qed.

Lemma lookup_set_if b key v (kwargs : gmap string value) key' :
  set_if b key v kwargs !! key' =
    if b && bool_decide (key = key') then Some v else kwargs !! key'.
Proof.
  unfold set_if. destruct b; [| done]. simpl.
  destruct (bool_decide (key = key')) eqn:E.
  - apply bool_decide_eq_true in E as ->. apply lookup_insert_eq.
  - apply bool_decide_eq_false in E. by apply lookup_insert_ne.
Qed.

Lemma lookup_set_given s key (kwargs : gmap string value) key' :
  set_given s key kwargs !! key' =
    match given s with
    | Some s => if bool_decide (key = key') then Some (VStr s) else kwargs !! key'
    | None => kwargs !! key'
    end.
Proof.
  unfold set_given. destruct (given s) as [s'|]; [| done].
  destruct (bool_decide (key = key')) eqn:E.
  - apply bool_decide_eq_true in E as ->. apply lookup_insert_eq.
  - apply bool_decide_eq_false in E. by apply lookup_insert_ne.
Qed.

Lemma lookup_set_timeout t (kwargs : gmap string value) key' :
  set_timeout t kwargs !! key' =
    match t with
    | Some n =>
        if negb (Z.eqb n 0) && bool_decide ("timeout" = key')
        then Some (VNum n) else kwargs !! key'
    | None => kwargs !! key'
    end.
Proof.
  unfold set_timeout. destruct t as [n|]; [| done].
  destruct (Z.eqb n 0); [done |]. simpl.
  destruct (bool_decide ("timeout" = key')) eqn:E.
  - apply bool_decide_eq_true in E as <-. apply lookup_insert_eq.
  - apply bool_decide_eq_false in E. by apply lookup_insert_ne.
Qed.

Lemma lookup_insert_bool (kwargs : gmap string value) key v key' :
  <[key := v]> kwargs !! key' =
    if bool_decide (key = key') then Some v else kwargs !! key'.
Proof.
  destruct (bool_decide (key = key')) eqn:E.
  - apply bool_decide_eq_true in E as ->. apply lookup_insert_eq.
  - apply bool_decide_eq_false in E. by apply lookup_insert_ne.
Qed.

(** Every key of the merged arguments, looked up. *)
Lemma lookup_merge args defaults cmd_config key :
  merge_kwargs args defaults cmd_config !! key =
    if arg_no_validate args && bool_decide ("validate_command" = key)
    then Some (VBool false)
    else if arg_show_return_code args && bool_decide ("show_return_code" = key)
    then Some (VBool true)
    else
      match
        (match arg_timeout args with
         | Some n =>
             if negb (Z.eqb n 0) && bool_decide ("timeout" = key)
             then Some (VNum n) else None
         | None => None
         end)
      with
      | Some v => Some v
      | None =>
          match
            (match given (arg_log_file args) with
             | Some s => if bool_decide ("log_file" = key) then Some (VStr s) else None
             | None => None
             end)
          with
          | Some v => Some v
          | None =>
              match
                (match given (arg_history_file args) with
                 | Some s =>
                     if bool_decide ("history_file" = key)
                     then Some (VStr s) else None
                 | None => None
                 end)
              with
              | Some v => Some v
              | None =>
                  if arg_no_prompt_toolkit args
                     && bool_decide ("use_prompt_toolkit" = key)
                  then Some (VBool false)
                  else if arg_no_rich args && bool_decide ("use_rich" = key)
                  then Some (VBool false)
                  else if bool_decide ("exit_commands" = key)
                  then Some (VList (VStr <$> arg_exit_commands args))
                  else if bool_decide ("prompt_template" = key)
                  then Some (VStr (arg_prompt_template args))
                  else from_file defaults cmd_config key
              end
          end
      end.
Proof.
  unfold merge_kwargs.
  rewrite !lookup_set_if, lookup_set_timeout, !lookup_set_given, !lookup_set_if,
    !lookup_insert_bool, lookup_file.
  destruct (arg_no_validate args && bool_decide ("validate_command" = key));
    [done |].
  destruct (arg_show_return_code args && bool_decide ("show_return_code" = key));
    [done |].
  destruct (arg_timeout args) as [n|];
    [destruct (negb (Z.eqb n 0) && bool_decide ("timeout" = key)); [done |] |];
    (destruct (given (arg_log_file args)) as [s|];
       [destruct (bool_decide ("log_file" = key)); [done |] |];
       (destruct (given (arg_history_file args)) as [s'|];
          [destruct (bool_decide ("history_file" = key)); [done |] |]; done)).
Qed.

Lemma lookup_merge_file args defaults cmd_config key :
  key ∉ cli_keys ->
  merge_kwargs args defaults cmd_config !! key = from_file defaults cmd_config key.
Proof.
  intros Hkey. rewrite lookup_merge.
  assert (forall k, k ∈ cli_keys -> bool_decide (k = key) = false) as Hne.
  { intros k Hk. apply bool_decide_eq_false. by intros ->. }
  destruct (arg_timeout args), (given (arg_log_file args)),
    (given (arg_history_file args));
    rewrite !Hne by (apply list_elem_of_In; simpl; tauto);
    by rewrite !andb_false_r.
Qed.

(** X16. For every key the command line never writes, the keyword
    arguments hold what the configuration file says: the value of the
    table of the command when it has the key, else the value of the
    defaults, else nothing. *)
Theorem file_keys_follow_precedence args defaults cmd_config key :
  key ∉ cli_keys ->
  merge_kwargs args defaults cmd_config !! key = from_file defaults cmd_config key.
Proof. apply lookup_merge_file. Qed.

Lemma file_keys_follow_precedence_witness :
  merge_kwargs (bare_args "git")
    {["enable_history" := VBool false; "verbose_exit" := VBool true]}
    {["enable_history" := VBool true]}
  !! "enable_history" = Some (VBool true).
Proof.
  refine (file_keys_follow_precedence (bare_args "git") _ _ "enable_history" _).
  intros H. apply list_elem_of_In in H. simpl in H.
  by repeat destruct H as [H | H].
Defined.

(** X17. The prompt template and the exit words always come from the
    command line: the parser gives both a default, and both are written
    after the file was merged, so a configuration file cannot set
    them. *)
Theorem prompt_and_exit_words_come_from_the_command_line args defaults cmd_config :
  merge_kwargs args defaults cmd_config !! "prompt_template"
  = Some (VStr (arg_prompt_template args))
  /\ merge_kwargs args defaults cmd_config !! "exit_commands"
     = Some (VList (VStr <$> arg_exit_commands args)).
Proof.
  rewrite !lookup_merge. simpl. rewrite !andb_false_r.
  destruct (arg_timeout args), (given (arg_log_file args)),
    (given (arg_history_file args)); by rewrite ?andb_false_r.
Qed.

(** X18. An option of the command line overrides the file only when it is
    given and not empty or zero.  [--no-rich], [--no-prompt-toolkit] and
    [--no-validate] can only switch off, [--show-return-code] only on; a
    timeout of zero and empty file names leave what the file says. *)
Theorem options_override_when_given args defaults cmd_config :
  let kwargs := merge_kwargs args defaults cmd_config in
  let file := from_file defaults cmd_config in
  kwargs !! "use_rich"
    = (if arg_no_rich args then Some (VBool false) else file "use_rich")
  /\ kwargs !! "use_prompt_toolkit"
     = (if arg_no_prompt_toolkit args then Some (VBool false)
        else file "use_prompt_toolkit")
  /\ kwargs !! "validate_command"
     = (if arg_no_validate args then Some (VBool false)
        else file "validate_command")
  /\ kwargs !! "show_return_code"
     = (if arg_show_return_code args then Some (VBool true)
        else file "show_return_code")
  /\ kwargs !! "timeout"
     = match arg_timeout args with
       | Some n => if Z.eqb n 0 then file "timeout" else Some (VNum n)
       | None => file "timeout"
       end
  /\ kwargs !! "history_file"
     = match arg_history_file args with
       | Some s => if bool_decide (s = "") then file "history_file"
                   else Some (VStr s)
       | None => file "history_file"
       end
  /\ kwargs !! "log_file"
     = match arg_log_file args with
       | Some s => if bool_decide (s = "") then file "log_file" else Some (VStr s)
       | None => file "log_file"
       end.
Proof.
  cbv zeta. rewrite !lookup_merge. unfold given. simpl.
  repeat split;
    destruct (arg_no_validate args), (arg_show_return_code args),
      (arg_no_rich args), (arg_no_prompt_toolkit args);
    destruct (arg_timeout args) as [n|]; try destruct (Z.eqb n 0);
    destruct (arg_log_file args) as [l|];
    try destruct (bool_decide (l = ""));
    destruct (arg_history_file args) as [h|];
    try destruct (bool_decide (h = ""));
    reflexivity.
Qed.

Lemma cli_keys_are_parameters key : key ∈ cli_keys -> key ∈ replize_parameters.
Proof.
  intros H. apply list_elem_of_In in H. apply list_elem_of_In.
  simpl in *. intuition.
Qed.

Lemma from_file_dom defaults cmd_config key :
  is_Some (from_file defaults cmd_config key)
  <-> key ∈ dom defaults \/ key ∈ dom cmd_config.
Proof.
  unfold from_file. rewrite !elem_of_dom.
  destruct (cmd_config !! key) as [v|] eqn:E.
  - split; [intros _; right; by eexists | by eexists].
  - split; [by left | intros [H | [? ?]]; done].
Qed.

(** A key of the merged arguments comes from the file or is one the
    command line writes. *)
Lemma merge_dom args defaults cmd_config key :
  key ∈ dom (merge_kwargs args defaults cmd_config) ->
  key ∈ cli_keys \/ key ∈ dom defaults \/ key ∈ dom cmd_config.
Proof.
  intros H. destruct (decide (key ∈ cli_keys)) as [Hk | Hk]; [by left |].
  right. apply elem_of_dom in H. rewrite lookup_merge_file in H by done.
  by apply from_file_dom.
Qed.

Lemma merge_dom_file args defaults cmd_config key :
  key ∉ cli_keys ->
  key ∈ dom defaults \/ key ∈ dom cmd_config ->
  key ∈ dom (merge_kwargs args defaults cmd_config).
Proof.
  intros Hk H. apply elem_of_dom. rewrite lookup_merge_file by done.
  by apply from_file_dom.
Qed.

Lemma merge_binds args defaults cmd_config :
  known_keys defaults -> known_keys cmd_config ->
  bind_arguments (merge_kwargs args defaults cmd_config)
  = inr (merge_kwargs args defaults cmd_config).
Proof.
  intros Hd Hc.
  assert (forall key,
            key ∈ dom (merge_kwargs args defaults cmd_config) ->
            key ∈ replize_parameters) as Hall.
  { intros key [H | [H | H]]%merge_dom;
      [by apply cli_keys_are_parameters | by apply Hd | by apply Hc]. }
  unfold bind_arguments.
  rewrite bool_decide_eq_false_2.
  - by rewrite bool_decide_eq_true_2.
  - intros H%Hall. apply list_elem_of_In in H. simpl in H. by intuition.
Qed.

(** X19. The call of [replize] binds exactly when every key of the
    defaults and of the table of the command is a parameter of
    [ReplizeConfig] other than [command]; a single other key in the file,
    [command] itself included, makes the call raise a [TypeError]. *)
Theorem file_keys_must_be_parameters args defaults cmd_config :
  (known_keys defaults -> known_keys cmd_config ->
   bind_arguments (merge_kwargs args defaults cmd_config)
   = inr (merge_kwargs args defaults cmd_config))
  /\ (forall key,
        key ∈ dom defaults \/ key ∈ dom cmd_config ->
        key ∉ replize_parameters ->
        exists msg,
          bind_arguments (merge_kwargs args defaults cmd_config)
          = inl (Exc TypeError msg)).
Proof.
  split; [apply merge_binds |].
  intros key Hin Hkey.
  assert (key ∈ dom (merge_kwargs args defaults cmd_config)) as Hdom.
  { apply merge_dom_file; [| done]. intros H. by apply cli_keys_are_parameters in H. }
  unfold bind_arguments.
  destruct (bool_decide ("command" ∈ dom (merge_kwargs args defaults cmd_config)));
    [by eexists |].
  rewrite bool_decide_eq_false_2; [by eexists |].
  intros H. by apply Hkey, H.
Qed.

Lemma file_keys_must_be_parameters_witness :
  exists msg,
    bind_arguments
      (merge_kwargs (bare_args "git") {["colour" := VBool true]} ∅)
    = inl (Exc TypeError msg).
Proof.
  refine (proj2 (file_keys_must_be_parameters (bare_args "git")
                   {["colour" := VBool true]} ∅) "colour" _ _).
  - left. apply elem_of_dom. by eexists.
  - intros H. apply list_elem_of_In in H. simpl in H.
    by repeat destruct H as [H | H].
Defined.

End Kwargs.

Section ConfigFiles.

Lemma suffix_snoc (dir : path) (name : string) :
  suffix (dir ++ [name]) = suffix [name].
Proof. unfold suffix. by rewrite last_snoc. Qed.

Lemma rfind_dot_append (stem ext : string) :
  rfind_dot ext = None ->
  rfind_dot (stem +:+ String "." ext) = Some (String.length stem).
Proof.
  intros H. induction stem as [|c stem IH].
  - rewrite append_nil_l. simpl. by rewrite H.
  - rewrite append_cons. simpl. by rewrite IH.
Qed.

Lemma drop_chars_append (stem rest : string) :
  drop_chars (String.length stem) (stem +:+ rest) = rest.
Proof.
  induction stem as [|c stem IH]; [by destruct rest |].
  rewrite append_cons. simpl. apply IH.
Qed.

Lemma length_append (s t : string) :
  String.length (s +:+ t) = String.length s + String.length t.
Proof.
  induction s as [|c s IH]; [done |]. rewrite append_cons. simpl. by rewrite IH.
Qed.

(** The suffix of a name with a last extension: none when the name starts
    with that dot. *)
Lemma suffix_extension (dir : path) (stem ext : string) :
  rfind_dot ext = None -> ext <> "" ->
  suffix (dir ++ [stem +:+ String "." ext])
  = if bool_decide (stem = "") then "" else String "." ext.
Proof.
  intros Hext Hne. rewrite suffix_snoc. unfold suffix. simpl last. simpl default.
  rewrite (rfind_dot_append _ _ Hext), length_append.
  destruct stem as [|c stem]; [done |].
  rewrite (bool_decide_eq_false_2 (String c stem = "")) by done.
  rewrite drop_chars_append.
  destruct ext as [|d ext]; [done |].
  assert (Nat.ltb 0 (String.length (String c stem)) = true) as ->
    by (by apply Nat.ltb_lt; simpl; lia).
  assert (Nat.ltb (String.length (String c stem))
            (String.length (String c stem)
             + String.length (String "." (String d ext)) - 1) = true) as ->
    by (apply Nat.ltb_lt; simpl; lia).
  done.
Qed.

(** X20. When [~/.replizerc], the first default location, exists, the
    search stops there, and as its name has no suffix the file is not
    read: a warning about the unknown format is printed and the empty dict
    returned, whatever other configuration files exist. *)
Theorem replizerc_hides_the_other_files fs :
  exists_ fs (home fs ++ [".replizerc"]) = true ->
  load_config_file fs None
  = ([UnknownFormat (home fs ++ [".replizerc"])], inr (VDict ∅)).
Proof.
  intros H. unfold load_config_file, default_paths. simpl first_existing.
  rewrite H. unfold load_path. rewrite H, suffix_snoc. reflexivity.
Qed.

Lemma replizerc_hides_the_other_files_witness :
  load_config_file
    (Files ["home"; "me"] (fun _ => []) (fun _ => true) true true
           (fun _ => inr {["defaults" := VDict ∅]}) (fun _ => inr VNone))
    None
  = ([UnknownFormat ["home"; "me"; ".replizerc"]], inr (VDict ∅)).
Proof.
  exact (replizerc_hides_the_other_files
           (Files ["home"; "me"] (fun _ => []) (fun _ => true) true true
                  (fun _ => inr {["defaults" := VDict ∅]}) (fun _ => inr VNone))
           eq_refl).
Defined.

(** X21. An existing file whose name ends in [.toml] is parsed as TOML
    when the parser is installed, and what the parser returns or raises is
    the result; without the parser a warning is printed and the empty dict
    returned.  A file named just [.toml] has no suffix and is not read. *)
Theorem toml_files_are_parsed fs s dir stem :
  to_path fs s = dir ++ [stem +:+ ".toml"] ->
  exists_ fs (to_path fs s) = true ->
  load_config_file fs (Some s)
  = if bool_decide (stem = "") then
      ([UnknownFormat (to_path fs s)], inr (VDict ∅))
    else if has_tomllib fs then
      ([], match toml_load fs (to_path fs s) with
           | inr d => inr (VDict d)
           | inl e => inl e
           end)
    else ([TomlNotAvailable (to_path fs s)], inr (VDict ∅)).
Proof.
  intros Hp Hex. unfold load_config_file, load_path. rewrite Hex. simpl negb.
  cbv iota. rewrite Hp in *.
  rewrite (suffix_extension dir stem "toml") by done.
  destruct (bool_decide (stem = "")); [done |].
  rewrite bool_decide_eq_true_2 by (by left).
  destruct (has_tomllib fs); [| done]. simpl.
  by destruct (toml_load fs (dir ++ [stem +:+ ".toml"])).
Qed.

Lemma toml_files_are_parsed_witness :
  load_config_file
    (Files ["home"; "me"] (fun s => ["etc"; s]) (fun _ => true) true true
           (fun _ => inr {["defaults" := VDict ∅]}) (fun _ => inr VNone))
    (Some "replize.toml")
  = ([], inr (VDict {["defaults" := VDict ∅]})).
Proof.
  exact (toml_files_are_parsed
           (Files ["home"; "me"] (fun s => ["etc"; s]) (fun _ => true) true true
                  (fun _ => inr {["defaults" := VDict ∅]}) (fun _ => inr VNone))
           "replize.toml" ["etc"] "replize" eq_refl eq_refl).
Defined.

(** X22. Without [--config], or with a configuration file that does not
    exist, the command line alone decides: no default location is looked
    at, nothing is printed, the call of [replize] always binds, and its
    keyword arguments are those of the command line merged with empty
    tables. *)
Theorem command_line_without_file fs args :
  given (arg_config args) = None
  \/ (exists s, given (arg_config args) = Some s
                /\ exists_ fs (to_path fs s) = false) ->
  _replize_cli fs args = ([], inr (merge_kwargs args ∅ ∅)).
Proof.
  assert (forall key, key ∈ dom (∅ : gmap string value) ->
                      key ∈ replize_parameters) as Hempty
    by (intros key H; by rewrite dom_empty_L in H).
  intros [H | (s & H & Hex)]; unfold _replize_cli; rewrite H.
  - simpl. rewrite !lookup_empty. simpl. f_equal. by apply merge_binds.
  - unfold load_config_file, load_path. rewrite Hex. simpl.
    rewrite !lookup_empty. simpl. f_equal. by apply merge_binds.
Qed.

Lemma command_line_without_file_witness :
  _replize_cli
    (Files ["home"; "me"] (fun _ => []) (fun _ => true) true true
           (fun _ => inr {["defaults" := VDict {["verbose_exit" := VBool true]}]})
           (fun _ => inr VNone))
    (bare_args "git")
  = ([], inr (merge_kwargs (bare_args "git") ∅ ∅)).
Proof.
  refine (command_line_without_file _ (bare_args "git") _). by left.
Defined.

End ConfigFiles.

Section MoreOfTheLoop.

(** X23. An exception of the line reader ends the loop at once, with the
    state as it was and nothing but the prompt in the trace: the loop
    returns when the class of the exception is one of the configured exit
    classes or derives from one, and raises the exception to its caller
    otherwise. *)
Theorem reader_exception_ends_loop config w logging st e inputs :
  ((exists cls, cls ∈ exit_exceptions config /\ cls ∈ mro (exc_type e)) ->
   _run_repl_loop config w logging st (ReadRaises e :: inputs)
   = (st, [EvInput (get_prompt config st)], Returned))
  /\ ((forall cls, cls ∈ exit_exceptions config -> cls ∉ mro (exc_type e)) ->
      _run_repl_loop config w logging st (ReadRaises e :: inputs)
      = (st, [EvInput (get_prompt config st)], Raised e)).
Proof.
  rewrite loop_cons. cbv zeta. unfold turn. simpl. unfold at_loop_level.
  split.
  - intros (cls & Hin & Hsub).
    assert (isinstance_any e (exit_exceptions config) = true) as ->; [| done].
    apply existsb_exists. exists cls.
    split; [by apply list_elem_of_In | by apply bool_decide_eq_true].
  - intros Hnone.
    assert (isinstance_any e (exit_exceptions config) = false) as ->; [| done].
    apply not_true_is_false. intros (cls & Hin & Hsub)%existsb_exists.
    apply bool_decide_eq_true in Hsub.
    by apply (Hnone cls); [apply list_elem_of_In |].
Qed.

Lemma reader_exception_ends_loop_witness :
  _run_repl_loop (default_config "ls") quiet_world false (St 1 ["-l"])
    [ReadRaises (Exc (UserClass "Hangup" KeyboardInterrupt) ""); Line "-l"]
  = (St 1 ["-l"], [EvInput (Prompt "{command} >>> " "ls" 1)], Returned).
Proof.
  refine (proj1 (reader_exception_ends_loop (default_config "ls") quiet_world
                   false (St 1 ["-l"])
                   (Exc (UserClass "Hangup" KeyboardInterrupt) "") [Line "-l"]) _).
  exists KeyboardInterrupt. split; [by right; left | by right; left].
Defined.

(** X24. A command that is spawned and ends within the timeout, with
    callbacks that return and no log: after the spawn and the wait, the
    standard output goes to its callback when it is not empty, then the
    standard error to its own, then the return code is shown when asked for
    and not zero, then every post-command hook is called with the return
    code and both outputs. *)
Theorem completed_command_is_routed config w a argv p out err f g :
  shlex_split (full_command config a) = inr argv ->
  Popen w argv = inr p ->
  communicate p (timeout config) = inr (out, err) ->
  stdout_callback config = user_callback f -> f out = None ->
  stderr_callback config = user_callback g -> g err = None ->
  hooks_raise_errors config ->
  execute_command config w false a
  = ([EvPopen argv; EvCommunicate (timeout config)]
       ++ (if bool_decide (out = []) then [] else [EvStdoutCallback out])
       ++ (if bool_decide (err = []) then [] else [EvStderrCallback err])
       ++ (if show_return_code config
              && negb (bool_decide (proc_returncode p = 0%Z))
           then [EvPrint (to config Stderr) (ReturnCode (proc_returncode p))]
           else [])
       ++ post_hooks_trace config a (proc_returncode p) out err 0
            (post_command_hooks config),
     inr ()).
Proof.
  intros Hargv Hp Hc Hf Hfo Hg Hge Hhooks.
  unfold execute_command, tokenize.
  rewrite Hargv, try_except_unfold, !bind_unfold. simpl.
  unfold spawn. rewrite Hp. simpl.
  unfold attend, wait. rewrite Hc, Hf, Hg. simpl.
  rewrite (post_hooks_events _ _ _ _ _ Hhooks).
  destruct (bool_decide (out = [])), (bool_decide (err = [])),
    (show_return_code config && negb (bool_decide (proc_returncode p = 0%Z)));
    simpl; rewrite ?Hfo, ?Hge; reflexivity.
Qed.

Lemma completed_command_is_routed_witness :
  execute_command routing_config noisy_world false "-l"
  = ([EvPopen ["ls"; "-l"]; EvCommunicate None;
      EvStdoutCallback [Byte.x61]; EvStderrCallback [Byte.x62];
      EvPrint Stderr (ReturnCode 2);
      EvPostHook 0 "ls" "-l" 2 [Byte.x61] [Byte.x62]],
     inr ()).
Proof.
  refine (completed_command_is_routed routing_config noisy_world "-l"
            ["ls"; "-l"] _ [Byte.x61] [Byte.x62] _ _
            eq_refl eq_refl eq_refl eq_refl eq_refl eq_refl eq_refl _).
  split.
  - intros hook ? ? ? Hin. by apply elem_of_nil in Hin.
  - intros hook c a rc out err e Hin Hhook.
    apply list_elem_of_In in Hin. simpl in Hin.
    by destruct Hin as [<- | []].
Defined.

End MoreOfTheLoop.
